(** * conky: colour engine, Wayland font metrics and shared-memory pool

    A shallow embedding of [src/colours.cc] (colour depth set-up,
    [adjust_colours], [do_gradient], [hex_nibble_value], the Wayland branch
    of [get_x11_color]) and of the font-metric and [shm_pool] routines of
    the Wayland display output, followed by the properties established
    about them.

    Conventions.  The target is LP64 and little-endian (x86-64): [short] is
    16 bits, [int] and [unsigned int] 32 bits, [long], [unsigned long] and
    [size_t] 64 bits.  A machine integer is a [Z] and every conversion the
    C++ code performs is written out as a wrap-around.  [float] is IEEE
    binary32 and [double] binary64, both taken from [SpecFloat] with
    round-to-nearest-even, each operation evaluated in the type C++ gives it
    (FLT_EVAL_METHOD = 0).  Global variables are threaded explicitly. *)

From Stdlib Require Import ZArith List Bool String Ascii Lia SpecFloat.
Import ListNotations.
Local Open Scope Z_scope.

(* ------------------------------------------------------------------ *)
(** ** Machine integers *)

Definition wrap_unsigned (bits z : Z) : Z := z mod 2 ^ bits.

Definition wrap_signed (bits z : Z) : Z :=
  (z + 2 ^ (bits - 1)) mod 2 ^ bits - 2 ^ (bits - 1).

Definition to_uchar : Z -> Z := wrap_unsigned 8.
Definition to_char : Z -> Z := wrap_signed 8.
Definition to_short : Z -> Z := wrap_signed 16.
Definition to_int : Z -> Z := wrap_signed 32.
Definition to_uint : Z -> Z := wrap_unsigned 32.
Definition to_long : Z -> Z := wrap_signed 64.
Definition to_ulong : Z -> Z := wrap_unsigned 64.
Definition to_size_t : Z -> Z := wrap_unsigned 64.

(* ------------------------------------------------------------------ *)
(** ** Floating point *)

(** [static_cast<int>] of a floating-point value: the fractional part is
    discarded (truncation toward zero).  The C++ standard leaves the
    conversion undefined for NaN, infinities and values outside [int]; the
    embedding returns 0 for the first two and wraps the last. *)
Definition float_trunc (x : spec_float) : Z :=
  match x with
  | S754_finite s m e =>
      cond_Zopp s (if 0 <=? e then Z.shiftl (Zpos m) e
                   else Z.shiftr (Zpos m) (- e))
  | _ => 0
  end.

Module F32.
Definition prec : Z := 24.
Definition emax : Z := 128.
Definition of_int (z : Z) : spec_float := binary_normalize prec emax z 0 false.
Definition mul : spec_float -> spec_float -> spec_float := SFmul prec emax.
Definition div : spec_float -> spec_float -> spec_float := SFdiv prec emax.
Definition opp : spec_float -> spec_float := SFopp.
Definition zero : spec_float := S754_zero false.
Definition one : spec_float := S754_finite false 8388608 (-23).
End F32.

Module F64.
Definition prec : Z := 53.
Definition emax : Z := 1024.
Definition of_int (z : Z) : spec_float := binary_normalize prec emax z 0 false.
(** Promotion of a [float] operand to [double]: the value is kept, the
    mantissa is re-aligned to 53 bits. *)
Definition of_float (x : spec_float) : spec_float :=
  match x with
  | S754_finite s m e => binary_round prec emax s m e
  | _ => x
  end.
Definition add : spec_float -> spec_float -> spec_float := SFadd prec emax.
Definition sub : spec_float -> spec_float -> spec_float := SFsub prec emax.
Definition mul : spec_float -> spec_float -> spec_float := SFmul prec emax.
Definition div : spec_float -> spec_float -> spec_float := SFdiv prec emax.
(** The [double] a decimal literal [digits * 10^-scale] denotes: the
    correctly rounded quotient of two integers that are both exactly
    representable (below 2^53). *)
Definition of_decimal (digits : Z) (scale : Z) : spec_float :=
  div (of_int digits) (of_int (10 ^ scale)).
Definition to_int (x : spec_float) : Z := to_int (float_trunc x).
End F64.

(** The literal [0.5]. *)
Definition half : spec_float := F64.of_decimal 5 1.

(* ------------------------------------------------------------------ *)
(** ** Error log *)

(** The messages [NORM_ERR] can emit from the modelled code. *)
Inductive log_msg : Type :=
| NonStandardDepth
    (* "using non-standard colour depth, gradients may look like a lolly-pop" *)
| CantParseColour (name : string) (len : Z).
    (* "can't parse X color '%s' (%d)" *)

(* ------------------------------------------------------------------ *)
(** ** Colour depth state: [colour_depth], [redmask], [greenmask], [bluemask] *)

Record state : Type := mkState {
  colour_depth : Z;          (* short colour_depth = 0; *)
  redmask : Z;               (* long redmask, greenmask, bluemask; *)
  greenmask : Z;
  bluemask : Z;
  errlog : list log_msg      (* what NORM_ERR has written so far *)
}.

(** [NORM_ERR(...)]: append one message to the log. *)
Definition NORM_ERR (msg : log_msg) (st : state) : state :=
  {| colour_depth := colour_depth st; redmask := redmask st;
     greenmask := greenmask st; bluemask := bluemask st;
     errlog := errlog st ++ [msg] |}.

Definition initial_state : state :=
  {| colour_depth := 0; redmask := 0; greenmask := 0; bluemask := 0;
     errlog := [] |}.

(** What [set_up_gradient] reads from the display back end: whether output
    goes to X11 ([out_to_x], always [false] in a build without BUILD_X11)
    and the number of bit planes the X display reports. *)
Record display_env : Type := mkEnv {
  out_to_x : bool;
  DisplayPlanes : Z
}.

Definition wayland_env : display_env :=
  {| out_to_x := false; DisplayPlanes := 0 |}.

(* precalculated: 31/255, and 63/255 *)
Definition CONST_8_TO_5_BITS : spec_float := F64.of_decimal 12156862745098 14.
Definition CONST_8_TO_6_BITS : spec_float := F64.of_decimal 247058823529412 15.

(** [for (int i = n - 1; i >= 0; i--) mask |= 1 << i;] *)
Fixpoint mask_bits (n : nat) (mask : Z) : Z :=
  match n with
  | O => mask
  | S i => mask_bits i (Z.lor mask (to_int (Z.shiftl 1 (Z.of_nat i))))
  end.

Definition set_up_gradient (env : display_env) (st : state) : state :=
  let depth := if out_to_x env then to_short (DisplayPlanes env) else 16 in
  let st :=
    if negb (depth =? 24) && negb (depth =? 16)
    then NORM_ERR NonStandardDepth st else st in
  let n := Z.to_nat (Z.quot depth 3) in
  let red := mask_bits n 0 in
  let green := mask_bits n 0 in
  let blue := mask_bits n 0 in
  let green :=
    if Z.rem depth 3 =? 1
    then Z.lor green (to_int (Z.shiftl 1 (Z.quot depth 3))) else green in
  {| colour_depth := depth;
     redmask := to_long (Z.shiftl red (Z.quot (2 * depth) 3 + Z.rem depth 3));
     greenmask := to_long (Z.shiftl green (Z.quot depth 3));
     bluemask := blue;
     errlog := errlog st |}.

(** The state [set_up_gradient] produces for a 24-plane X display. *)
Definition true_colour (st : state) : Prop :=
  colour_depth st = 24 /\ redmask st = 0xff0000 /\
  greenmask st = 0x00ff00 /\ bluemask st = 0x0000ff.

(** [if (colour_depth == 0) { set_up_gradient(); }] *)
Definition ensure_depth (env : display_env) (st : state) : state :=
  if colour_depth st =? 0 then set_up_gradient env st else st.

(** One channel of the 16-bit quantisation:
    [static_cast<int>(v * k)] for a [double] [v] holding an integer. *)
Definition scale_channel (v : Z) (k : spec_float) : Z :=
  F64.to_int (F64.mul (F64.of_int v) k).

(* adjust colour values depending on colour depth *)
Definition adjust_colours (env : display_env) (colour : Z) (st : state)
  : Z * state :=
  let st := ensure_depth env st in
  if colour_depth st =? 16 then
    let r := Z.shiftr (Z.land colour 0xff0000) 16 in
    let g := Z.shiftr (Z.land colour 0xff00) 8 in
    let b := Z.land colour 0xff in
    let colour := to_uint (to_int (Z.shiftl (scale_channel r CONST_8_TO_5_BITS) 11)) in
    let colour :=
      Z.lor colour (to_uint (to_int (Z.shiftl (scale_channel g CONST_8_TO_6_BITS) 5))) in
    let colour := Z.lor colour (to_uint (scale_channel b CONST_8_TO_5_BITS)) in
    (colour, st)
  else (colour, st).

(** The signed offset added to the first colour's channel at interpolation
    factor [factor]:
    [-(factor * diff) - 0.5] when the channel does not increase,
    [factor * diff + 0.5] when it does; the product is a [float], the sum
    a [double], and the assignment to an [int] truncates. *)
Definition channel_offset (factor : spec_float) (c1 c2 diff : Z) : Z :=
  let prod := F32.mul factor (F32.of_int diff) in
  if c2 <=? c1
  then F64.to_int (F64.sub (F64.of_float (F32.opp prod)) half)
  else F64.to_int (F64.add (F64.of_float prod) half).

(** [if (c3 < 0) c3 = 0;  if (c3 > bluemask) c3 = bluemask;] *)
Definition clamp_channel (blue_mask c3 : Z) : Z :=
  let c3 := if c3 <? 0 then 0 else c3 in
  if blue_mask <? c3 then to_int blue_mask else c3.

(** The three channels of a colour, extracted with the masks. *)
Definition red_of (st : state) (redshift colour : Z) : Z :=
  to_int (Z.shiftr (Z.land colour (to_ulong (redmask st))) redshift).
Definition green_of (st : state) (greenshift colour : Z) : Z :=
  to_int (Z.shiftr (Z.land colour (to_ulong (greenmask st))) greenshift).
Definition blue_of (st : state) (colour : Z) : Z :=
  to_int (Z.land colour (to_ulong (bluemask st))).

(** [abs(c1 - c2)] on [int]. *)
Definition channel_diff (c1 c2 : Z) : Z := to_int (Z.abs (to_int (c1 - c2))).

(** Body of the loop of [do_gradient] at index [i]. *)
Definition gradient_entry (st : state) (redshift greenshift width : Z)
    (first_colour last_colour : Z) (i : Z) : Z :=
  let red1 := red_of st redshift first_colour in
  let green1 := green_of st greenshift first_colour in
  let blue1 := blue_of st first_colour in
  let red2 := red_of st redshift last_colour in
  let green2 := green_of st greenshift last_colour in
  let blue2 := blue_of st last_colour in
  let reddiff := channel_diff red1 red2 in
  let greendiff := channel_diff green1 green2 in
  let bluediff := channel_diff blue1 blue2 in
  let factor := F32.div (F32.of_int i) (F32.of_int (to_int (width - 1))) in
  let red3 := to_int (channel_offset factor red1 red2 reddiff + red1) in
  let green3 := to_int (channel_offset factor green1 green2 greendiff + green1) in
  let blue3 := to_int (channel_offset factor blue1 blue2 bluediff + blue1) in
  let red3 := clamp_channel (bluemask st) red3 in
  let green3 := clamp_channel (bluemask st) green3 in
  let blue3 := clamp_channel (bluemask st) blue3 in
  to_ulong (Z.lor (Z.lor (to_int (Z.shiftl red3 redshift))
                         (to_int (Z.shiftl green3 greenshift)))
                  blue3).

(* this function returns the next colour between two colours for a gradient *)
Definition do_gradient (env : display_env) (width : Z)
    (first_colour last_colour : Z) (st : state) : list Z * state :=
  (* the shifts are computed from colour_depth as it is on entry *)
  let redshift :=
    to_short (Z.quot (2 * colour_depth st) 3 + Z.rem (colour_depth st) 3) in
  let greenshift := to_short (Z.quot (colour_depth st) 3) in
  (* Make sure the width is always at least 2 *)
  let width := Z.max 2 width in
  let st := ensure_depth env st in
  (map (fun i => gradient_entry st redshift greenshift width
                   first_colour last_colour (Z.of_nat i))
       (seq 0 (Z.to_nat width)),
   st).

(* ------------------------------------------------------------------ *)
(** ** Colour names: [hex_nibble_value] and [get_x11_color] (Wayland) *)

(** A [char] as the [int] it promotes to ([char] is signed on the target;
    the comparisons below come out the same if it is not). *)
Definition char_code (c : ascii) : Z := to_char (Z.of_N (N_of_ascii c)).

Definition hex_nibble_value (c : ascii) : Z :=
  let c := char_code c in
  if (char_code "0" <=? c) && (c <=? char_code "9") then c - char_code "0"
  else if (char_code "a" <=? c) && (c <=? char_code "f") then c - char_code "a" + 10
  else if (char_code "A" <=? c) && (c <=? char_code "F") then c - char_code "A" + 10
  else -1.

(** [a[i] = v] on a fixed-size array; nothing is written when [i] is not an
    index of [a] (with [len] at most 8 the code only writes indices 3 down
    to 0 of [argb]). *)
Fixpoint array_set (a : list Z) (i : nat) (v : Z) : list Z :=
  match a, i with
  | [], _ => []
  | _ :: t, O => v :: t
  | h :: t, S j => h :: array_set t j v
  end.

(** The loop [for (int i = 0; i + 1 < len; i += 2)] over the remaining
    characters [name + i], with [k = i / 2]; [None] is the [goto err]. *)
Fixpoint parse_hex_pairs (s : string) (k : nat) (argb : list Z)
  : option (list Z) :=
  match s with
  | String c1 (String c2 rest) =>
      let nib1 := hex_nibble_value c1 in
      let nib2 := hex_nibble_value c2 in
      if (nib1 <? 0) || (nib2 <? 0) then None
      else
        let val := to_int (Z.shiftl nib1 4 + nib2) in
        parse_hex_pairs rest (S k) (array_set argb (3 - k) (to_uchar val))
  | _ => Some argb
  end.

(** [long out; memcpy(&out, argb, 4)]: the local [out] is not initialised
    and the copy writes four of its eight bytes, the low four in
    little-endian order.  The argument [out] is what the storage of the
    variable held before the copy; its upper four bytes are the upper four
    bytes of the result. *)
Definition memcpy_long (out : Z) (argb : list Z) : Z :=
  to_long (Z.shiftl (Z.shiftr (to_ulong out) 32) 32
           + (nth 0 argb 0 + Z.shiftl (nth 1 argb 0) 8
              + Z.shiftl (nth 2 argb 0) 16 + Z.shiftl (nth 3 argb 0) 24)).

(** [if (name[0] == '#') { name++; len--; }] *)
Definition skip_marker (name : string) : string :=
  match name with
  | String "#" rest => rest
  | _ => name
  end.

Definition strlen (s : string) : Z := Z.of_nat (String.length s).

(** The Wayland branch of [get_x11_color].  [OsLookupColor] is the colour
    database of [x11-color.h]: [Some (r, g, b)] when the name is found.
    [uninit] is the indeterminate content of the local [long out] on
    entry. *)
Definition get_x11_color (OsLookupColor : string -> option (Z * Z * Z))
    (uninit : Z) (name : string) (st : state) : Z * state :=
  match OsLookupColor name with
  | Some (r, g, b) =>
      (to_long (to_int
         (Z.lor (Z.lor (Z.lor 0x000000ff (Z.shiftl (Z.land r 0xff) 24))
                       (Z.shiftl (Z.land g 0xff) 16))
                (Z.shiftl (Z.land b 0xff) 8))), st)
  | None =>
      let name := skip_marker name in
      let len := strlen name in
      let err := (0xFF00FF, NORM_ERR (CantParseColour name len) st) in
      if (len =? 6) || (len =? 8) then
        match parse_hex_pairs name 0 [0xff; 0; 0; 0] with
        | Some argb => (memcpy_long uninit argb, st)
        | None => err
        end
      else err
  end.

(** What the specification calls a valid hex colour string: six or eight
    hexadecimal digits after an optional leading marker. *)
Definition is_hex_digit (c : ascii) : bool :=
  let n := N_of_ascii c in
  ((48 <=? n) && (n <=? 57) || (97 <=? n) && (n <=? 102)
   || (65 <=? n) && (n <=? 70))%N.

Fixpoint all_hex (s : string) : bool :=
  match s with
  | EmptyString => true
  | String c rest => is_hex_digit c && all_hex rest
  end.

Definition valid_hex_colour (name : string) : bool :=
  let s := skip_marker name in
  ((String.length s =? 6) || (String.length s =? 8))%nat && all_hex s.

(** The alpha byte of a colour in the Wayland encoding ([argb[0]], the
    0x000000ff of a named colour). *)
Definition alpha_byte (colour : Z) : Z := Z.land colour 0xff.

(* ------------------------------------------------------------------ *)
(** ** Font metrics cache: [pango_fonts] *)

Record pango_font : Type := mkFont {
  desc : option Z;           (* PangoFontDescription *, None for nullptr *)
  ascent : Z;                (* uint32_t metrics.ascent *)
  descent : Z;               (* uint32_t metrics.descent *)
  font_alpha : Z
}.

(** Outcome of a call that contains an [assert]. *)
Inductive outcome (A : Type) : Type :=
| Returned (a : A)
| AssertionFailed.
Arguments Returned {A} a.
Arguments AssertionFailed {A}.

(** [assert(f < pango_fonts.size()); ... pango_fonts[f] ...] *)
Definition font_at (pango_fonts : list pango_font) (f : Z)
  : outcome pango_font :=
  if f <? Z.of_nat (List.length pango_fonts) then
    match nth_error pango_fonts (Z.to_nat f) with
    | Some font => Returned font
    | None => AssertionFailed
    end
  else AssertionFailed.

Definition font_height (pango_fonts : list pango_font) (f : Z) : outcome Z :=
  if Z.of_nat (List.length pango_fonts) =? 0 then Returned 2
  else
    match font_at pango_fonts f with
    | Returned font => Returned (to_int (to_uint (ascent font + descent font)))
    | AssertionFailed => AssertionFailed
    end.

Definition font_ascent (pango_fonts : list pango_font) (f : Z) : outcome Z :=
  if Z.of_nat (List.length pango_fonts) =? 0 then Returned 1
  else
    match font_at pango_fonts f with
    | Returned font => Returned (to_int (ascent font))
    | AssertionFailed => AssertionFailed
    end.

Definition font_descent (pango_fonts : list pango_font) (f : Z) : outcome Z :=
  if Z.of_nat (List.length pango_fonts) =? 0 then Returned 1
  else
    match font_at pango_fonts f with
    | Returned font => Returned (to_int (descent font))
    | AssertionFailed => AssertionFailed
    end.

(** The descriptions [free_fonts] hands to [pango_font_description_free]. *)
Fixpoint released_descriptions (pango_fonts : list pango_font) : list Z :=
  match pango_fonts with
  | [] => []
  | font :: rest =>
      match desc font with
      | Some d => d :: released_descriptions rest
      | None => released_descriptions rest
      end
  end.

(** [free_fonts]: every non-null description is released, then
    [pango_fonts.clear()].  Returns the released descriptions and the new
    font table. *)
Definition free_fonts (pango_fonts : list pango_font)
  : list Z * list pango_font :=
  (released_descriptions pango_fonts, []).

(* ------------------------------------------------------------------ *)
(** ** Shared-memory pool: [shm_pool_create], [shm_pool_allocate] *)

Record shm_pool : Type := mkPool {
  pool_size : Z;             (* size_t size *)
  pool_used : Z;             (* size_t used *)
  pool_data : Z              (* void *data, as an address *)
}.

(** The pool as [shm_pool_create] leaves it once [make_shm_pool] has
    mapped [size] bytes at [data]. *)
Definition shm_pool_create (size data : Z) : shm_pool :=
  {| pool_size := size; pool_used := 0; pool_data := data |}.

(** Result of [shm_pool_allocate]: the returned pointer ([None] for NULL),
    the value of [*offset] after the call, and the pool after the call. *)
Record allocation : Type := mkAllocation {
  alloc_ptr : option Z;
  alloc_offset : Z;
  alloc_pool : shm_pool
}.

Definition shm_pool_allocate (pool : shm_pool) (size : Z) (offset : Z)
  : allocation :=
  if pool_size pool <? to_size_t (pool_used pool + size) then
    {| alloc_ptr := None; alloc_offset := offset; alloc_pool := pool |}
  else
    let offset := to_int (pool_used pool) in
    {| alloc_ptr := Some (pool_data pool + offset);
       alloc_offset := offset;
       alloc_pool :=
         {| pool_size := pool_size pool;
            pool_used := to_size_t (pool_used pool + size);
            pool_data := pool_data pool |} |}.

(** A pool whose fields are values of their C types. *)
Definition pool_wf (pool : shm_pool) : Prop :=
  0 <= pool_size pool < 2 ^ 64 /\ 0 <= pool_used pool < 2 ^ 64.


(** The number a string of hexadecimal digits spells, most significant
    digit first. *)
Fixpoint hex_value_from (acc : Z) (s : string) : Z :=
  match s with
  | EmptyString => acc
  | String c rest => hex_value_from (acc * 16 + hex_nibble_value c) rest
  end.

Definition hex_value (s : string) : Z := hex_value_from 0 s.

(* ------------------------------------------------------------------ *)
(** ** [set_foreground_color] *)

(** [uint8_t r = current_color >> 24; g = current_color >> 16;
    b = current_color >> 8; a = current_color;] *)
Definition colour_bytes (current_color : Z) : Z * Z * Z * Z :=
  (to_uchar (Z.shiftr current_color 24),
   to_uchar (Z.shiftr current_color 16),
   to_uchar (Z.shiftr current_color 8),
   to_uchar current_color).

(** [v / 255.0] for a [uint8_t] [v]. *)
Definition colour_component (v : Z) : spec_float :=
  F64.div (F64.of_int v) (F64.of_int 255).

(** [set_foreground_color] in a build without BUILD_ARGB: the new value of
    [current_color] and, when the window has a drawing context ([cr] is not
    null), the four arguments of [cairo_set_source_rgba]. *)
Definition set_foreground_color (c : Z) (cr : bool)
  : Z * option (spec_float * spec_float * spec_float * spec_float) :=
  let current_color := c in
  let '(r, g, b, a) := colour_bytes current_color in
  (current_color,
   if cr
   then Some (colour_component r, colour_component g,
              colour_component b, colour_component a)
   else None).

(* ------------------------------------------------------------------ *)
(** ** [load_fonts] *)

(** What [load_fonts] obtains from fontconfig and pango: the description
    allocated for slot [i] from a font name, and the ascent and descent (in
    pango units, as [int]) of the font loaded from a description. *)
Record font_backend : Type := mkFontBackend {
  describe : nat -> string -> Z;
  metrics_ascent : Z -> Z;
  metrics_descent : Z -> Z
}.

(** The default-constructed [pango_font]. *)
Definition new_pango_font : pango_font :=
  {| desc := None; ascent := 0; descent := 0; font_alpha := 0xffff |}.

(** [pango_fonts.resize(n)]. *)
Definition vector_resize (v : list pango_font) (n : nat) : list pango_font :=
  firstn n v ++ repeat new_pango_font (n - List.length v).

(** Body of the loop of [load_fonts] for slot [i]: [auto ascent =
    pango_font_metrics_get_ascent(font_metrics) / 1024] is an [int]
    division, stored in a [uint32_t]; [font_alpha] is not written. *)
Definition load_font (be : font_backend) (i : nat) (name : string)
    (entry : pango_font) : pango_font :=
  let d := describe be i name in
  {| desc := Some d;
     ascent := to_uint (Z.quot (to_int (metrics_ascent be d)) 1024);
     descent := to_uint (Z.quot (to_int (metrics_descent be d)) 1024);
     font_alpha := font_alpha entry |}.

(** [for (i = 0; i < fonts.size(); i++)] over the slots from [i] on. *)
Fixpoint load_each (be : font_backend) (i : nat) (fonts : list string)
    (pango_fonts : list pango_font) : list pango_font :=
  match fonts, pango_fonts with
  | name :: fonts', entry :: rest =>
      load_font be i name entry :: load_each be (S i) fonts' rest
  | _, _ => pango_fonts
  end.

(** [load_fonts]: [fonts] holds the names of the configured fonts. *)
Definition load_fonts (be : font_backend) (fonts : list string)
    (pango_fonts : list pango_font) : list pango_font :=
  load_each be 0 fonts (vector_resize pango_fonts (List.length fonts)).

(* ------------------------------------------------------------------ *)
(** ** Anonymous files and the compositor pool: [os_create_anonymous_file],
       [make_shm_pool], [shm_pool_create], [shm_pool_destroy] *)

(** The answers of the operating system and of the compositor to the calls
    the pool code makes; every call is made at most once per run. *)
Record system : Type := mkSystem {
  xdg_runtime_dir : option string;       (* getenv("XDG_RUNTIME_DIR") *)
  malloc_name : bool;                    (* malloc of the name buffer succeeds *)
  have_mkostemp : bool;                  (* HAVE_MKOSTEMP *)
  make_temp : string -> Z * string;      (* mkostemp/mkstemp: template to fd (or -1) and name *)
  fcntl_getfd : Z -> Z;                  (* fcntl(fd, F_GETFD) *)
  fcntl_setfd : Z -> Z -> Z;             (* fcntl(fd, F_SETFD, flags) *)
  posix_fallocate : Z -> Z -> Z;         (* 0, or an error number *)
  mmap : Z -> Z -> option Z;             (* size, fd; None for MAP_FAILED *)
  wl_shm_create_pool : Z -> Z -> option Z  (* fd, size; None for NULL *)
}.

(** The calls that release or report something, in the order made. *)
Inductive sys_event : Type :=
| SysUnlink (name : string)
| SysClose (fd : Z)
| SysMunmap (data size : Z)
| SysPoolDestroy (pool : Z)
| SysBufferDestroy
| SysPrint (msg : string)
| LuaUpdateWindowTable (x y width height : Z).

Definition FD_CLOEXEC : Z := 1.
Definition ENOENT : Z := 2.

Definition set_cloexec_or_close (sys : system) (fd : Z) : Z * list sys_event :=
  if fd =? -1 then (-1, [])
  else
    let flags := fcntl_getfd sys fd in
    if flags =? -1 then (-1, [SysClose fd])
    else if fcntl_setfd sys fd (Z.lor flags FD_CLOEXEC) =? -1
         then (-1, [SysClose fd])
         else (fd, []).

Definition create_tmpfile_cloexec (sys : system) (tmpname : string)
  : Z * list sys_event :=
  let (fd, name) := make_temp sys tmpname in
  if have_mkostemp sys then
    if 0 <=? fd then (fd, [SysUnlink name]) else (fd, [])
  else
    if 0 <=? fd then
      let (fd', log) := set_cloexec_or_close sys fd in
      (fd', log ++ [SysUnlink name])
    else (fd, []).

(** Result of [os_create_anonymous_file]: the descriptor or -1, the value
    the function itself stores in [errno] (if any), and the events. *)
Definition os_create_anonymous_file (sys : system) (size : Z)
  : Z * option Z * list sys_event :=
  match xdg_runtime_dir sys with
  | None => (-1, Some ENOENT, [])
  | Some path =>
      if negb (malloc_name sys) then (-1, None, [])
      else
        let name := (path ++ "/weston-shared-XXXXXX")%string in
        let (fd, log) := create_tmpfile_cloexec sys name in
        if fd <? 0 then (-1, None, log)
        else
          let ret := posix_fallocate sys fd size in
          if negb (ret =? 0) then (-1, Some ret, log ++ [SysClose fd])
          else (fd, None, log)
  end.

(** Result of [make_shm_pool]: the compositor pool ([None] for NULL), the
    value stored through [data] (if any; [Some None] is MAP_FAILED), and
    the events. *)
Definition make_shm_pool (sys : system) (size : Z)
  : option Z * option (option Z) * list sys_event :=
  let '(fd, _, log) := os_create_anonymous_file sys size in
  if fd <? 0 then
    (None, None, log ++ [SysPrint "creating a buffer file failed"])
  else
    match mmap sys (to_size_t size) fd with
    | None => (None, Some None, log ++ [SysPrint "mmap failed"; SysClose fd])
    | Some data =>
        (wl_shm_create_pool sys fd size, Some (Some data), log ++ [SysClose fd])
    end.

(** [shm_pool_create(shm, size)] with its failure path: the compositor pool
    object together with the new [shm_pool], or [None]. *)
Definition shm_pool_create_in (sys : system) (size : Z)
  : option (Z * shm_pool) * list sys_event :=
  let '(pool, data, log) := make_shm_pool sys (to_int size) in
  match pool, data with
  | Some p, Some (Some d) => (Some (p, shm_pool_create size d), log)
  | _, _ => (None, log)
  end.

(* destroy the pool. this does not unmap the memory though *)
Definition shm_pool_destroy (wl_pool : Z) (pool : shm_pool) : list sys_event :=
  [SysMunmap (pool_data pool) (pool_size pool); SysPoolDestroy wl_pool].

(* ------------------------------------------------------------------ *)
(** ** The window and its buffer *)

Record rectangle : Type := mkRectangle {
  rect_x : Z; rect_y : Z; rect_width : Z; rect_height : Z   (* size_t *)
}.

(** The cairo image surface laid over pool memory, with what its
    [shm_surface_data] holds: the buffer created at [surface_offset] in the
    compositor pool, and the pool to destroy with the surface. *)
Record shm_surface : Type := mkSurface {
  surface_map : Z;
  surface_width : Z;
  surface_height : Z;
  surface_stride : Z;
  surface_offset : Z;
  surface_pool : option (Z * shm_pool)
}.

(** [struct window]; of the drawing context, the layout and the pango
    context only whether they are null is kept. *)
Record window : Type := mkWindow {
  win_rectangle : rectangle;
  win_shm : option Z;
  win_cairo_surface : option shm_surface;
  win_cr : bool;
  win_layout : bool;
  win_pango_context : bool
}.

Section Window.

(** [cairo_format_stride_for_width(CAIRO_FORMAT_ARGB32, width)], a function
    of the cairo library. *)
Variable stride_for_width : Z -> Z.
Variable sys : system.

Definition data_length_for_shm_surface (rect : rectangle) : Z :=
  let stride := stride_for_width (to_int (rect_width rect)) in
  to_int (to_size_t (to_size_t stride * rect_height rect)).

(** [create_shm_surface_from_pool]: the surface ([None] for NULL) and the
    pool after the allocation.  The local [offset] is not initialised and
    is read only after a successful allocation; 0 stands for what it held. *)
Definition create_shm_surface_from_pool (rect : rectangle) (pool : shm_pool)
  : option shm_surface * shm_pool :=
  let stride := stride_for_width (to_int (rect_width rect)) in
  let length := to_int (to_size_t (to_size_t stride * rect_height rect)) in
  let a := shm_pool_allocate pool (to_size_t length) 0 in
  match alloc_ptr a with
  | None => (None, alloc_pool a)
  | Some map =>
      (Some {| surface_map := map;
               surface_width := to_int (rect_width rect);
               surface_height := to_int (rect_height rect);
               surface_stride := stride;
               surface_offset := alloc_offset a;
               surface_pool := None |},
       alloc_pool a)
  end.

Definition window_allocate_buffer (w : window)
  : outcome (window * list sys_event) :=
  match win_shm w with
  | None => AssertionFailed
  | Some _ =>
      let (created, log) :=
        shm_pool_create_in sys
          (to_size_t (data_length_for_shm_surface (win_rectangle w))) in
      match created with
      | None => Returned (w, log ++ [SysPrint "could not allocate shm pool"])
      | Some (wl_pool, pool) =>
          match create_shm_surface_from_pool (win_rectangle w) pool with
          | (None, pool') =>
              Returned
                ({| win_rectangle := win_rectangle w; win_shm := win_shm w;
                    win_cairo_surface := None; win_cr := win_cr w;
                    win_layout := win_layout w;
                    win_pango_context := win_pango_context w |},
                 log ++ shm_pool_destroy wl_pool pool')
          | (Some surface, pool') =>
              Returned
                ({| win_rectangle := win_rectangle w; win_shm := win_shm w;
                    win_cairo_surface :=
                      Some {| surface_map := surface_map surface;
                              surface_width := surface_width surface;
                              surface_height := surface_height surface;
                              surface_stride := surface_stride surface;
                              surface_offset := surface_offset surface;
                              surface_pool := Some (wl_pool, pool') |};
                    win_cr := true; win_layout := true;
                    win_pango_context := true |},
                 log)
          end
      end
  end.

(** [window_create]; [uninit] gives the indeterminate contents of the
    fields the function does not set before allocating the buffer. *)
Definition window_create (uninit : window) (shm : option Z) (width height : Z)
  : outcome (window * list sys_event) :=
  window_allocate_buffer
    {| win_rectangle := {| rect_x := 0; rect_y := 0;
                           rect_width := to_size_t width;
                           rect_height := to_size_t height |};
       win_shm := shm;
       win_cairo_surface := win_cairo_surface uninit;
       win_cr := win_cr uninit; win_layout := win_layout uninit;
       win_pango_context := win_pango_context uninit |}.

(** What destroying the surface and its drawing context releases:
    [shm_surface_data_destroy] runs once both references are gone. *)
Definition surface_release (surface : option shm_surface) : list sys_event :=
  match surface with
  | None => []
  | Some s =>
      SysBufferDestroy ::
      match surface_pool s with
      | Some (wl_pool, pool) => shm_pool_destroy wl_pool pool
      | None => []
      end
  end.

Definition window_free_buffer (w : window) : window * list sys_event :=
  ({| win_rectangle := win_rectangle w; win_shm := win_shm w;
      win_cairo_surface := None; win_cr := false; win_layout := false;
      win_pango_context := false |},
   surface_release (win_cairo_surface w)).

Definition window_resize (w : window) (width height : Z)
  : outcome (window * list sys_event) :=
  let (w1, log1) := window_free_buffer w in
  let w2 :=
    {| win_rectangle := {| rect_x := rect_x (win_rectangle w1);
                           rect_y := rect_y (win_rectangle w1);
                           rect_width := to_size_t width;
                           rect_height := to_size_t height |};
       win_shm := win_shm w1; win_cairo_surface := win_cairo_surface w1;
       win_cr := win_cr w1; win_layout := win_layout w1;
       win_pango_context := win_pango_context w1 |} in
  match window_allocate_buffer w2 with
  | Returned (w3, log2) => Returned (w3, SysPrint "resize" :: log1 ++ log2)
  | AssertionFailed => AssertionFailed
  end.

End Window.

Definition window_get_width_height (w : window) : Z * Z :=
  (to_int (rect_width (win_rectangle w)), to_int (rect_height (win_rectangle w))).

(** [xdg_toplevel_configure]: the new [text_width], [text_height] and
    window; [border_total] is what [get_border_total()] returns. *)
Definition xdg_toplevel_configure (border_total : Z) (w : window)
    (width height : Z) : Z * Z * window :=
  (to_int (width - to_int (2 * border_total)),
   to_int (height - to_int (2 * border_total)),
   {| win_rectangle := {| rect_x := rect_x (win_rectangle w);
                          rect_y := rect_y (win_rectangle w);
                          rect_width := to_size_t width;
                          rect_height := to_size_t height |};
      win_shm := win_shm w; win_cairo_surface := win_cairo_surface w;
      win_cr := win_cr w; win_layout := win_layout w;
      win_pango_context := win_pango_context w |}).

(** The step of [main_loop_wait] headed "resize window if it isn't right
    size": the window afterwards, [changed], and the events. *)
Definition resize_to_text (stride_for_width : Z -> Z) (sys : system)
    (border_total text_start_x text_start_y text_width text_height : Z)
    (w : window)
  : outcome (window * Z * list sys_event) :=
  let (width, height) := window_get_width_height w in
  let fixed_size := 0 in
  let wanted_width := to_int (text_width + to_int (2 * border_total)) in
  let wanted_height := to_int (text_height + to_int (2 * border_total)) in
  if (fixed_size =? 0)
     && (negb (wanted_width =? width) || negb (wanted_height =? height))
  then
    match window_resize stride_for_width sys w wanted_width wanted_height with
    | Returned (w', log) =>
        Returned (w', 1,
                  SysPrint "resizing" :: log ++
                  [LuaUpdateWindowTable text_start_x text_start_y
                     text_width text_height])
    | AssertionFailed => AssertionFailed
    end
  else Returned (w, 0, []).

(** [adjust_coords]: [x += rectangle.width / 2; y += rectangle.height;
    x += border; y += border;], the first two sums taken in [size_t]. *)
Definition adjust_coords (border : Z) (w : window) (x y : Z) : Z * Z :=
  let x := to_int (to_size_t (to_size_t x + rect_width (win_rectangle w) / 2)) in
  let y := to_int (to_size_t (to_size_t y + rect_height (win_rectangle w))) in
  (to_int (x + border), to_int (y + border)).

(** A system in which every call succeeds, a stride of four bytes per
    pixel (cairo's for ARGB32) and a window, for the examples below. *)
Definition obliging_system : system :=
  {| xdg_runtime_dir := Some "/run/user/1000"%string;
     malloc_name := true;
     have_mkostemp := true;
     make_temp := fun template => (5, template);
     fcntl_getfd := fun _ => 0;
     fcntl_setfd := fun _ _ => 0;
     posix_fallocate := fun _ _ => 0;
     mmap := fun _ _ => Some 65536;
     wl_shm_create_pool := fun _ _ => Some 1 |}.

Definition four_bytes_per_pixel (width : Z) : Z := 4 * width.

Definition bare_window : window :=
  {| win_rectangle := {| rect_x := 0; rect_y := 0; rect_width := 1; rect_height := 1 |};
     win_shm := Some 1;
     win_cairo_surface := None;
     win_cr := false; win_layout := false; win_pango_context := false |}.

Definition sys_event_eq_dec (a b : sys_event) : {a = b} + {a <> b}.
Proof.
  decide equality; try apply Z.eq_dec; apply string_dec.
Defined.

(** A system without XDG_RUNTIME_DIR. *)
Definition homeless_system : system :=
  {| xdg_runtime_dir := None;
     malloc_name := true;
     have_mkostemp := true;
     make_temp := fun template => (5, template);
     fcntl_getfd := fun _ => 0;
     fcntl_setfd := fun _ _ => 0;
     posix_fallocate := fun _ _ => 0;
     mmap := fun _ _ => Some 65536;
     wl_shm_create_pool := fun _ _ => Some 1 |}.

(* ------------------------------------------------------------------ *)
(** ** [window_commit_buffer] and the time-out of [main_loop_wait] *)

(** The requests [window_commit_buffer] sends to the compositor. *)
Inductive wl_request : Type :=
| WlAttach (buffer : shm_surface)
| WlDamage (x y width height : Z)
| WlCommit.

Definition window_commit_buffer (w : window) : outcome (list wl_request) :=
  match win_cairo_surface w with
  | None => AssertionFailed
  | Some surface =>
      Returned [WlAttach surface;
                WlDamage (to_int (rect_x (win_rectangle w)))
                         (to_int (rect_y (win_rectangle w)))
                         (to_int (rect_width (win_rectangle w)))
                         (to_int (rect_height (win_rectangle w)));
                WlCommit]
  end.

(** [if (t < 0.0) { t = 0.0; }  int ms = t * 1000;] *)
Definition timeout_ms (t : spec_float) : Z :=
  let t := if SFltb t (F64.of_int 0) then F64.of_int 0 else t in
  F64.to_int (F64.mul t (F64.of_int 1000)).

(* ================================================================== *)
(** * Properties *)

(* ------------------------------------------------------------------ *)
(** ** Colour depth and [adjust_colours] *)

Lemma ensure_depth_initialised (env : display_env) (st : state) :
  colour_depth st <> 0 -> ensure_depth env st = st.
Proof.
  intros Hd. unfold ensure_depth.
  destruct (Z.eqb_spec (colour_depth st) 0); [contradiction | reflexivity].
Qed.

Lemma adjust_colours_other_depth (env : display_env) (st : state) (c : Z) :
  colour_depth st <> 0 -> colour_depth st <> 16 ->
  adjust_colours env c st = (c, st).
Proof.
  intros H0 H16. unfold adjust_colours.
  rewrite (ensure_depth_initialised env st H0).
  destruct (Z.eqb_spec (colour_depth st) 16); [contradiction | reflexivity].
Qed.

(** C9.  Whatever the colour, when the colour depth in effect (the depth
    already set, or the one the lazy set-up installs on this first call) is
    not 16, [adjust_colours] returns the colour unchanged; the 5/6/5
    quantisation is applied at depth 16 only. *)
Theorem adjust_colours_identity_unless_16 (env : display_env) (st : state) (c : Z) :
  colour_depth (ensure_depth env st) <> 16 ->
  adjust_colours env c st = (c, ensure_depth env st).
Proof.
  intros H16. unfold adjust_colours.
  destruct (Z.eqb_spec (colour_depth (ensure_depth env st)) 16) as [E | _].
  - contradiction.
  - reflexivity.
Qed.

Lemma adjust_colours_identity_unless_16_witness :
  let env := {| out_to_x := true; DisplayPlanes := 24 |} in
  colour_depth (ensure_depth env initial_state) <> 16 /\
  adjust_colours env 0x123456 initial_state
  = (0x123456, ensure_depth env initial_state).
Proof.
  intro env. split.
  - vm_compute. discriminate.
  - apply (adjust_colours_identity_unless_16 env initial_state 0x123456).
    vm_compute. discriminate.
Defined.

(** On a first call under Wayland the depth becomes 16 and the colour is
    quantised.  The constants are the decimal expansions of 31/255 and
    63/255 cut off, the first slightly below 31/255: white comes out as
    red 30, green 63, blue 30. *)
Example adjust_colours_white :
  adjust_colours wayland_env 0xFFFFFF initial_state
  = (0xF7FE, set_up_gradient wayland_env initial_state).
Proof. vm_compute. reflexivity. Qed.

(** C3 (as the claim states it, refuted).  At depth 16 quantising twice is
    not quantising once: pure green 0x00FF00 becomes 0x07E0, and 0x07E0,
    read again as an 8/8/8 colour, becomes 0x003B. *)
Lemma adjust_colours_not_idempotent_at_16 :
  let st := set_up_gradient wayland_env initial_state in
  colour_depth st = 16 /\
  fst (adjust_colours wayland_env 0x00FF00 st) = 0x07E0 /\
  fst (adjust_colours wayland_env
         (fst (adjust_colours wayland_env 0x00FF00 st))
         (snd (adjust_colours wayland_env 0x00FF00 st))) = 0x003B /\
  ~ (forall (env : display_env) (s : state) (c : Z),
        colour_depth s <> 0 ->
        fst (adjust_colours env (fst (adjust_colours env c s))
               (snd (adjust_colours env c s)))
        = fst (adjust_colours env c s)).
Proof.
  intro st.
  split; [vm_compute; reflexivity|].
  split; [vm_compute; reflexivity|].
  split; [vm_compute; reflexivity|].
  intro H. specialize (H wayland_env st 0x00FF00).
  assert (Hd : colour_depth st <> 0) by (vm_compute; discriminate).
  specialize (H Hd). vm_compute in H. discriminate.
Qed.

(** C3 (amended).  With the colour depth fixed at a value other than 16,
    applying [adjust_colours] twice gives what applying it once gives, and
    the depth state is left as it was. *)
Theorem adjust_colours_idempotent_unless_16 (env : display_env) (st : state) (c : Z) :
  colour_depth st <> 0 -> colour_depth st <> 16 ->
  adjust_colours env (fst (adjust_colours env c st))
                     (snd (adjust_colours env c st))
  = adjust_colours env c st.
Proof.
  intros H0 H16.
  rewrite (adjust_colours_other_depth env st c H0 H16). cbn [fst snd].
  apply adjust_colours_other_depth; assumption.
Qed.

Lemma adjust_colours_idempotent_unless_16_witness :
  let env := {| out_to_x := true; DisplayPlanes := 24 |} in
  let st := set_up_gradient env initial_state in
  colour_depth st <> 0 /\ colour_depth st <> 16 /\
  adjust_colours env (fst (adjust_colours env 0xC0FFEE st))
                     (snd (adjust_colours env 0xC0FFEE st))
  = adjust_colours env 0xC0FFEE st.
Proof.
  intros env st. split; [|split].
  - vm_compute. discriminate.
  - vm_compute. discriminate.
  - apply (adjust_colours_idempotent_unless_16 env st 0xC0FFEE).
    + vm_compute. discriminate.
    + vm_compute. discriminate.
Defined.

(* ------------------------------------------------------------------ *)
(** ** [do_gradient]: length of the result *)

Lemma do_gradient_length (env : display_env) (st : state) (width c1 c2 : Z) :
  List.length (fst (do_gradient env width c1 c2 st)) = Z.to_nat (Z.max 2 width).
Proof.
  unfold do_gradient. cbn [fst].
  rewrite length_map, length_seq. reflexivity.
Qed.

(** C4.  For every width below 2 (zero and negative widths included)
    [do_gradient] proceeds as if the width were 2: it returns what it
    returns for width 2, a sequence of exactly two colours. *)
Theorem do_gradient_narrow_width (env : display_env) (st : state) (width c1 c2 : Z) :
  width < 2 ->
  do_gradient env width c1 c2 st = do_gradient env 2 c1 c2 st /\
  List.length (fst (do_gradient env width c1 c2 st)) = 2%nat.
Proof.
  intros Hw.
  assert (Hmax : Z.max 2 width = 2) by lia.
  split.
  - unfold do_gradient. rewrite Hmax. reflexivity.
  - rewrite do_gradient_length, Hmax. reflexivity.
Qed.

Lemma do_gradient_narrow_width_witness :
  -3 < 2 /\
  do_gradient wayland_env (-3) 0x07E0 0x001F initial_state
  = do_gradient wayland_env 2 0x07E0 0x001F initial_state /\
  List.length (fst (do_gradient wayland_env (-3) 0x07E0 0x001F initial_state)) = 2%nat.
Proof.
  split; [lia|].
  apply (do_gradient_narrow_width wayland_env initial_state (-3) 0x07E0 0x001F).
  lia.
Defined.

(* ------------------------------------------------------------------ *)
(** ** Font metrics cache *)

Lemma free_fonts_clears (pango_fonts : list pango_font) :
  snd (free_fonts pango_fonts) = [].
Proof. reflexivity. Qed.

(** C8.  With an empty font table [font_height], [font_ascent] and
    [font_descent] return 2, 1 and 1 for every index, without reaching the
    assertion; [free_fonts] leaves the table empty, so after it
    [font_height(0)] is 2 (and likewise for every other index and for the
    other two metrics). *)
Theorem font_metrics_fallback (pango_fonts : list pango_font) (f : Z) :
  (font_height [] f = Returned 2 /\
   font_ascent [] f = Returned 1 /\
   font_descent [] f = Returned 1) /\
  font_height (snd (free_fonts pango_fonts)) 0 = Returned 2 /\
  (font_height (snd (free_fonts pango_fonts)) f = Returned 2 /\
   font_ascent (snd (free_fonts pango_fonts)) f = Returned 1 /\
   font_descent (snd (free_fonts pango_fonts)) f = Returned 1).
Proof.
  rewrite free_fonts_clears.
  unfold font_height, font_ascent, font_descent. cbn [List.length Z.of_nat Z.eqb].
  repeat split.
Qed.

(** The fallback is taken only for the empty table: with fonts loaded an
    index inside the table gives that font's metrics and an index outside
    it fails the assertion. *)
Lemma font_height_loaded (pango_fonts : list pango_font) (f : Z) :
  pango_fonts <> [] ->
  font_height pango_fonts f =
  match font_at pango_fonts f with
  | Returned font => Returned (to_int (to_uint (ascent font + descent font)))
  | AssertionFailed => AssertionFailed
  end.
Proof.
  intros Hne. unfold font_height.
  destruct pango_fonts as [|font rest]; [contradiction|].
  cbn [List.length]. destruct (Z.eqb_spec (Z.of_nat (S (List.length rest))) 0); [lia | reflexivity].
Qed.

Lemma font_at_out_of_range (pango_fonts : list pango_font) (f : Z) :
  Z.of_nat (List.length pango_fonts) <= f ->
  font_at pango_fonts f = AssertionFailed.
Proof.
  intros Hf. unfold font_at.
  destruct (Z.ltb_spec f (Z.of_nat (List.length pango_fonts))); [lia | reflexivity].
Qed.

(* ------------------------------------------------------------------ *)
(** ** Shared-memory pool *)

Lemma to_size_t_small (z : Z) : 0 <= z < 2 ^ 64 -> to_size_t z = z.
Proof. intros Hz. unfold to_size_t, wrap_unsigned. apply Z.mod_small. exact Hz. Qed.

Lemma to_int_small (z : Z) : - 2 ^ 31 <= z < 2 ^ 31 -> to_int z = z.
Proof.
  intros Hz. unfold to_int, wrap_signed.
  change (2 ^ (32 - 1)) with (2 ^ 31).
  rewrite Z.mod_small; lia.
Qed.

(** When [used + size] does not wrap around [size_t], a request that does
    not fit is refused: NULL is returned, [*offset] is not written and the
    pool is unchanged. *)
Lemma shm_pool_allocate_exhausted (pool : shm_pool) (size offset : Z) :
  pool_wf pool -> 0 <= size -> pool_used pool + size < 2 ^ 64 ->
  pool_size pool < pool_used pool + size ->
  shm_pool_allocate pool size offset
  = {| alloc_ptr := None; alloc_offset := offset; alloc_pool := pool |}.
Proof.
  intros [Hs Hu] Hsz Hno Hover. unfold shm_pool_allocate.
  rewrite to_size_t_small by lia.
  destruct (Z.ltb_spec (pool_size pool) (pool_used pool + size)); [reflexivity | lia].
Qed.

(** A request that fits is served by bumping [used]: the offset is the
    old [used] (as long as that fits the [int] it is stored in), the
    pointer is [data + offset], and [used] advances by [size]. *)
Lemma shm_pool_allocate_bump (pool : shm_pool) (size offset : Z) :
  pool_wf pool -> 0 <= size -> pool_used pool + size <= pool_size pool ->
  pool_used pool < 2 ^ 31 ->
  shm_pool_allocate pool size offset
  = {| alloc_ptr := Some (pool_data pool + pool_used pool);
       alloc_offset := pool_used pool;
       alloc_pool := {| pool_size := pool_size pool;
                        pool_used := pool_used pool + size;
                        pool_data := pool_data pool |} |}.
Proof.
  intros [Hs Hu] Hsz Hfit Hint. unfold shm_pool_allocate.
  rewrite to_size_t_small by lia.
  destruct (Z.ltb_spec (pool_size pool) (pool_used pool + size)); [lia|].
  rewrite to_int_small by lia. reflexivity.
Qed.

(** A pool as [shm_pool_create] returns it: [size] is the size asked for
    and nothing is used. *)
Lemma shm_pool_create_in_fresh (sys : system) (size : Z) (wl_pool : Z)
    (pool : shm_pool) (log : list sys_event) :
  shm_pool_create_in sys size = (Some (wl_pool, pool), log) ->
  pool_size pool = size /\ pool_used pool = 0.
Proof.
  unfold shm_pool_create_in.
  destruct (make_shm_pool sys (to_int size)) as [[p d] l].
  destruct p as [p|]; [|discriminate].
  destruct d as [[d|]|]; try discriminate.
  intros H. injection H as _ <- _. split; reflexivity.
Qed.



(** Outside the pools the program passes, the sum [used + size] can wrap
    around [size_t]: a pool of 16 bytes with 8 used, asked for 2^64 - 4
    bytes, passes the bound check, returns [data + 8] and is left with
    [used] = 4. *)
Example shm_pool_allocate_wraps_around :
  let pool := {| pool_size := 16; pool_used := 8; pool_data := 4096 |} in
  let size := 2 ^ 64 - 4 in
  (pool_wf pool /\ 0 <= size < 2 ^ 64 /\ pool_size pool < pool_used pool + size) /\
  shm_pool_allocate pool size 0
  = {| alloc_ptr := Some 4104; alloc_offset := 8;
       alloc_pool := {| pool_size := 16; pool_used := 4; pool_data := 4096 |} |}.
Proof.
  intros pool size. split.
  - unfold pool_wf, pool, size. cbn [pool_size pool_used]. lia.
  - vm_compute. reflexivity.
Qed.

(* ------------------------------------------------------------------ *)
(** ** Colour names *)

(** [hex_nibble_value] is negative exactly on the characters that are not
    hexadecimal digits. *)
Lemma hex_nibble_value_negative (c : ascii) :
  (hex_nibble_value c <? 0) = negb (is_hex_digit c).
Proof.
  destruct c as [b0 b1 b2 b3 b4 b5 b6 b7].
  destruct b0, b1, b2, b3, b4, b5, b6, b7; vm_compute; reflexivity.
Qed.

(** Induction over a string two characters at a time, as the parsing loop
    consumes it. *)
Lemma string_pair_ind (P : string -> Prop) :
  P EmptyString ->
  (forall c, P (String c EmptyString)) ->
  (forall c1 c2 s, P s -> P (String c1 (String c2 s))) ->
  forall s, P s.
Proof.
  intros Hnil Hone Hstep s.
  enough (H : P s /\ forall c, P (String c s)) by exact (proj1 H).
  induction s as [|c s [IH1 IH2]].
  - split; [exact Hnil | exact Hone].
  - split; [apply IH2 | intro c0; apply Hstep; exact IH1].
Qed.

Lemma parse_hex_pairs_rejects (s : string) :
  forall (k : nat) (argb : list Z),
    Nat.even (String.length s) = true -> all_hex s = false ->
    parse_hex_pairs s k argb = None.
Proof.
  induction s as [|c|c1 c2 s IH] using string_pair_ind; intros k argb Heven Hhex.
  - discriminate Hhex.
  - discriminate Heven.
  - cbn [parse_hex_pairs].
    rewrite !hex_nibble_value_negative.
    cbn [all_hex] in Hhex.
    destruct (is_hex_digit c1); [|reflexivity].
    destruct (is_hex_digit c2); [|reflexivity].
    cbn [negb orb andb] in *.
    apply IH; [exact Heven | exact Hhex].
Qed.

Lemma strlen_six_or_eight (s : string) :
  ((strlen s =? 6) || (strlen s =? 8))
  = ((String.length s =? 6) || (String.length s =? 8))%nat.
Proof.
  unfold strlen.
  destruct (Nat.eqb_spec (String.length s) 6) as [E6 | N6];
    destruct (Nat.eqb_spec (String.length s) 8) as [E8 | N8];
    destruct (Z.eqb_spec (Z.of_nat (String.length s)) 6);
    destruct (Z.eqb_spec (Z.of_nat (String.length s)) 8);
    try reflexivity; lia.
Qed.

Lemma six_or_eight_even (n : nat) :
  ((n =? 6) || (n =? 8))%nat = true -> Nat.even n = true.
Proof.
  intros H. apply orb_true_iff in H.
  destruct H as [H | H]; apply Nat.eqb_eq in H; subst n; reflexivity.
Qed.

Lemma to_int_mod (z : Z) : to_int z mod 2 ^ 32 = z mod 2 ^ 32.
Proof.
  unfold to_int, wrap_signed. change (32 - 1) with 31.
  rewrite Zminus_mod_idemp_l. f_equal. lia.
Qed.

Lemma to_long_mod32 (z : Z) : to_long z mod 2 ^ 32 = z mod 2 ^ 32.
Proof.
  unfold to_long, wrap_signed. change (64 - 1) with 63.
  change (2 ^ 64) with 18446744073709551616.
  change (2 ^ 63) with 9223372036854775808.
  change (2 ^ 32) with 4294967296.
  Z.to_euclidean_division_equations. lia.
Qed.

Lemma div_mod_mul (c a b : Z) :
  0 < a -> 0 < b -> (c mod (a * b)) / a = (c / a) mod b.
Proof.
  intros Ha Hb. rewrite Z.rem_mul_r by lia.
  rewrite Z.add_comm, Z.mul_comm, Z.div_add_l by lia.
  rewrite (Z.div_small (c mod a)) by (apply Z.mod_pos_bound; lia). lia.
Qed.

Lemma byte_of_low32 (c k : Z) :
  0 <= k <= 24 ->
  to_uchar (Z.shiftr (c mod 2 ^ 32) k) = to_uchar (Z.shiftr c k).
Proof.
  intros Hk. unfold to_uchar, wrap_unsigned.
  rewrite !Z.shiftr_div_pow2 by lia.
  replace (2 ^ 32) with (2 ^ k * 2 ^ (32 - k))
    by (rewrite <- Z.pow_add_r by lia; f_equal; lia).
  rewrite div_mod_mul by (apply Z.pow_pos_nonneg; lia).
  apply Z.mod_mod_divide.
  exists (2 ^ (24 - k)). rewrite <- Z.pow_add_r by lia. f_equal. lia.
Qed.

(** [set_foreground_color] only looks at the low 32 bits of the colour. *)
Lemma colour_bytes_mod (c : Z) : colour_bytes (c mod 2 ^ 32) = colour_bytes c.
Proof.
  unfold colour_bytes.
  rewrite !byte_of_low32 by lia.
  pose proof (byte_of_low32 c 0 ltac:(lia)) as H0.
  rewrite !Z.shiftr_0_r in H0. rewrite H0. reflexivity.
Qed.

Lemma colour_bytes_packed (r g b a : Z) :
  0 <= r <= 255 -> 0 <= g <= 255 -> 0 <= b <= 255 -> 0 <= a <= 255 ->
  colour_bytes (a + b * 2 ^ 8 + g * 2 ^ 16 + r * 2 ^ 24) = (r, g, b, a).
Proof.
  intros Hr Hg Hb Ha. unfold colour_bytes, to_uchar, wrap_unsigned.
  rewrite !Z.shiftr_div_pow2 by lia.
  change (2 ^ 24) with 16777216.
  change (2 ^ 16) with 65536. change (2 ^ 8) with 256.
  repeat f_equal; Z.to_euclidean_division_equations; lia.
Qed.

(** What a consumer that reads the low 32 bits sees. *)
Lemma colour_bytes_low (c c' : Z) :
  to_uint c = to_uint c' -> colour_bytes c = colour_bytes c'.
Proof.
  intros H. rewrite <- (colour_bytes_mod c), <- (colour_bytes_mod c').
  unfold to_uint, wrap_unsigned in H. rewrite H. reflexivity.
Qed.

Lemma alpha_byte_low (c : Z) : alpha_byte (to_uint c) = alpha_byte c.
Proof.
  unfold alpha_byte, to_uint, wrap_unsigned.
  change 0xff with (Z.ones 8). rewrite !Z.land_ones by lia.
  apply Z.mod_mod_divide. exists (2 ^ 24). reflexivity.
Qed.

(** The four bytes [memcpy] writes are the low 32 bits of the result,
    whatever the variable held before. *)
Lemma memcpy_long_low (out : Z) (argb : list Z) :
  to_uint (memcpy_long out argb)
  = to_uint (nth 0 argb 0 + Z.shiftl (nth 1 argb 0) 8
             + Z.shiftl (nth 2 argb 0) 16 + Z.shiftl (nth 3 argb 0) 24).
Proof.
  unfold memcpy_long, to_uint, wrap_unsigned. rewrite to_long_mod32.
  rewrite (Z.shiftl_mul_pow2 _ 32) by lia.
  rewrite Z.add_comm. apply Z.mod_add. lia.
Qed.

(** A string of six hexadecimal digits never writes [argb[0]]: the alpha
    byte keeps its initial 0xff. *)
Lemma parse_six_digits_alpha (out : Z) (s : string) (argb : list Z) :
  String.length s = 6%nat ->
  parse_hex_pairs s 0 [0xff; 0; 0; 0] = Some argb ->
  alpha_byte (memcpy_long out argb) = 0xff.
Proof.
  intros Hlen Hparse.
  destruct s as [|c1 [|c2 [|c3 [|c4 [|c5 [|c6 [|c7 s]]]]]]]; try discriminate Hlen.
  cbn [parse_hex_pairs] in Hparse.
  destruct (_ || _) in Hparse; [discriminate|].
  destruct (_ || _) in Hparse; [discriminate|].
  destruct (_ || _) in Hparse; [discriminate|].
  cbn [array_set Nat.sub] in Hparse.
  injection Hparse as <-.
  rewrite <- alpha_byte_low, memcpy_long_low, alpha_byte_low.
  unfold alpha_byte. cbn [nth].
  change 0xff with (Z.ones 8) at 2. rewrite Z.land_ones by lia.
  rewrite !Z.shiftl_mul_pow2 by lia.
  match goal with
  | |- (_ + ?a * 2 ^ 8 + ?b * 2 ^ 16 + ?c * 2 ^ 24) mod _ = _ =>
      replace (0xff + a * 2 ^ 8 + b * 2 ^ 16 + c * 2 ^ 24)
        with (0xff + (a + b * 2 ^ 8 + c * 2 ^ 16) * 2 ^ 8) by ring
  end.
  rewrite Z.mod_add by lia. reflexivity.
Qed.

Section ColourNames.

(** The colour database of [x11-color.h], not part of the modelled code. *)
Variable OsLookupColor : string -> option (Z * Z * Z).

(** On the hex path a name and the same name behind the marker are parsed
    alike: the same low 32 bits, whatever the unwritten bytes hold in each
    call, and the same log. *)
Lemma get_x11_color_marker (uninit uninit' : Z) (name : string) (st : state) :
  OsLookupColor name = None ->
  OsLookupColor (String "#" name) = None ->
  skip_marker name = name ->
  to_uint (fst (get_x11_color OsLookupColor uninit (String "#" name) st))
  = to_uint (fst (get_x11_color OsLookupColor uninit' name st)) /\
  snd (get_x11_color OsLookupColor uninit (String "#" name) st)
  = snd (get_x11_color OsLookupColor uninit' name st).
Proof.
  intros H1 H2 Hskip. unfold get_x11_color.
  rewrite H1, H2. cbn [skip_marker]. rewrite Hskip.
  destruct ((strlen name =? 6) || (strlen name =? 8)); [|split; reflexivity].
  destruct (parse_hex_pairs name 0 [0xff; 0; 0; 0]) as [argb|];
    [|split; reflexivity].
  cbn [fst snd]. split; [|reflexivity].
  rewrite !memcpy_long_low. reflexivity.
Qed.

(** C5.  When neither ["ff00ff"] nor ["#ff00ff"] is a name of the colour
    database, [get_x11_color] yields the same colour for both: the 32 bits
    that hold the colour are 0xFF00FFFF in both results, so red is 0xff,
    green 0x00, blue 0xff and alpha 0xff for both, whatever the bytes of
    [out] that the copy does not write hold in either call; nothing is
    logged. *)
Theorem get_x11_color_ff00ff (uninit uninit' : Z) (st : state) :
  OsLookupColor "ff00ff" = None ->
  OsLookupColor "#ff00ff" = None ->
  to_uint (fst (get_x11_color OsLookupColor uninit "ff00ff" st))
  = to_uint (fst (get_x11_color OsLookupColor uninit' "#ff00ff" st)) /\
  to_uint (fst (get_x11_color OsLookupColor uninit "ff00ff" st)) = 0xFF00FFFF /\
  colour_bytes (fst (get_x11_color OsLookupColor uninit "ff00ff" st))
  = colour_bytes (fst (get_x11_color OsLookupColor uninit' "#ff00ff" st)) /\
  colour_bytes (fst (get_x11_color OsLookupColor uninit "ff00ff" st))
  = (0xff, 0, 0xff, 0xff) /\
  snd (get_x11_color OsLookupColor uninit "ff00ff" st) = st /\
  snd (get_x11_color OsLookupColor uninit' "#ff00ff" st) = st.
Proof.
  intros H1 H2.
  assert (Hplain : get_x11_color OsLookupColor uninit "ff00ff" st
                   = (memcpy_long uninit [0xff; 0xff; 0; 0xff], st)).
  { unfold get_x11_color. rewrite H1. reflexivity. }
  assert (Hmarked : get_x11_color OsLookupColor uninit' "#ff00ff" st
                    = (memcpy_long uninit' [0xff; 0xff; 0; 0xff], st)).
  { unfold get_x11_color. rewrite H2. reflexivity. }
  rewrite Hplain, Hmarked. cbn [fst snd].
  assert (Hlow : forall out, to_uint (memcpy_long out [0xff; 0xff; 0; 0xff])
                             = 0xFF00FFFF).
  { intros out. rewrite memcpy_long_low. reflexivity. }
  assert (Hbytes : forall out, colour_bytes (memcpy_long out [0xff; 0xff; 0; 0xff])
                               = (0xff, 0, 0xff, 0xff)).
  { intros out. rewrite (colour_bytes_low _ 0xFF00FFFF).
    - reflexivity.
    - rewrite Hlow. reflexivity. }
  split; [rewrite !Hlow; reflexivity|].
  split; [apply Hlow|].
  split; [rewrite !Hbytes; reflexivity|].
  split; [apply Hbytes|].
  split; reflexivity.
Qed.

(** C6.  A name that the colour database does not know and that is not six
    or eight hexadecimal digits after an optional marker makes
    [get_x11_color] log one "can't parse" message and return 0xFF00FF; no
    failure reaches the caller. *)
Theorem get_x11_color_fallback (uninit : Z) (name : string) (st : state) :
  OsLookupColor name = None ->
  valid_hex_colour name = false ->
  get_x11_color OsLookupColor uninit name st
  = (0xFF00FF,
     NORM_ERR (CantParseColour (skip_marker name) (strlen (skip_marker name))) st).
Proof.
  intros Hlookup Hvalid. unfold get_x11_color. rewrite Hlookup.
  unfold valid_hex_colour in Hvalid.
  rewrite strlen_six_or_eight.
  destruct ((String.length (skip_marker name) =? 6)
            || (String.length (skip_marker name) =? 8))%nat eqn:Hlen.
  - cbn [andb] in Hvalid.
    rewrite (parse_hex_pairs_rejects _ 0%nat _ (six_or_eight_even _ Hlen) Hvalid).
    reflexivity.
  - reflexivity.
Qed.

(** C10.  On the hex path (the name is not in the colour database) a string
    of six hexadecimal digits, with or without the marker, yields a colour
    whose alpha byte is 0xff; and whenever the alpha byte of the result is
    not 0xff the string has eight characters after the marker. *)
Theorem get_x11_color_alpha (uninit : Z) (name : string) (st : state) :
  OsLookupColor name = None ->
  (String.length (skip_marker name) = 6%nat ->
   all_hex (skip_marker name) = true ->
   alpha_byte (fst (get_x11_color OsLookupColor uninit name st)) = 0xff) /\
  (alpha_byte (fst (get_x11_color OsLookupColor uninit name st)) <> 0xff ->
   String.length (skip_marker name) = 8%nat).
Proof.
  intros Hlookup.
  assert (Hsix : String.length (skip_marker name) = 6%nat ->
                 alpha_byte (fst (get_x11_color OsLookupColor uninit name st)) = 0xff).
  { intros Hlen. unfold get_x11_color. rewrite Hlookup.
    rewrite strlen_six_or_eight, Hlen. cbn [Nat.eqb orb].
    destruct (parse_hex_pairs (skip_marker name) 0 [0xff; 0; 0; 0]) as [argb|] eqn:Hparse.
    - cbn [fst]. exact (parse_six_digits_alpha _ _ _ Hlen Hparse).
    - reflexivity. }
  split.
  - intros Hlen _. exact (Hsix Hlen).
  - intros Halpha.
    destruct (Nat.eqb_spec (String.length (skip_marker name)) 8) as [E8 | N8];
      [exact E8 | exfalso; apply Halpha].
    destruct (Nat.eqb_spec (String.length (skip_marker name)) 6) as [E6 | N6];
      [exact (Hsix E6)|].
    unfold get_x11_color. rewrite Hlookup. rewrite strlen_six_or_eight.
    apply Nat.eqb_neq in N8, N6. rewrite N8, N6. reflexivity.
Qed.

End ColourNames.

Lemma get_x11_color_ff00ff_witness :
  let lookup := fun _ : string => @None (Z * Z * Z) in
  let plain := get_x11_color lookup 0xabababababababab "ff00ff" initial_state in
  let marked := get_x11_color lookup 0 "#ff00ff" initial_state in
  lookup "ff00ff"%string = None /\ lookup "#ff00ff"%string = None /\
  (to_uint (fst plain) = to_uint (fst marked) /\
   to_uint (fst plain) = 0xFF00FFFF /\
   colour_bytes (fst plain) = colour_bytes (fst marked) /\
   colour_bytes (fst plain) = (0xff, 0, 0xff, 0xff) /\
   snd plain = initial_state /\ snd marked = initial_state).
Proof.
  intros lookup plain marked. split; [reflexivity|]. split; [reflexivity|].
  apply (get_x11_color_ff00ff lookup 0xabababababababab 0 initial_state);
    reflexivity.
Defined.

(** The returned [long] as a whole does depend on the bytes the copy leaves
    unwritten; its low 32 bits do not. *)
Example get_x11_color_unwritten_bytes :
  let lookup := fun _ : string => @None (Z * Z * Z) in
  fst (get_x11_color lookup 0 "ff00ff" initial_state) = 0xFF00FFFF /\
  fst (get_x11_color lookup 0xabababababababab "ff00ff" initial_state)
  = to_long 0xababababff00ffff.
Proof.
  intro lookup. split.
  - vm_compute. reflexivity.
  - vm_compute. reflexivity.
Qed.

Lemma get_x11_color_fallback_witness :
  let lookup := fun _ : string => @None (Z * Z * Z) in
  lookup "zz"%string = None /\ valid_hex_colour "zz" = false /\
  get_x11_color lookup 0 "zz" initial_state
  = (0xFF00FF, NORM_ERR (CantParseColour "zz" 2) initial_state).
Proof.
  intro lookup. split; [reflexivity|]. split; [reflexivity|].
  apply (get_x11_color_fallback lookup 0 "zz" initial_state); reflexivity.
Defined.

Lemma get_x11_color_alpha_witness :
  let lookup := fun _ : string => @None (Z * Z * Z) in
  lookup "#1a2B3c"%string = None /\
  (String.length (skip_marker "#1a2B3c") = 6%nat ->
   all_hex (skip_marker "#1a2B3c") = true ->
   alpha_byte (fst (get_x11_color lookup 0xabababababababab "#1a2B3c" initial_state)) = 0xff) /\
  (alpha_byte (fst (get_x11_color lookup 0xabababababababab "#1a2B3c" initial_state)) <> 0xff ->
   String.length (skip_marker "#1a2B3c") = 8%nat).
Proof.
  intro lookup. split; [reflexivity|].
  apply (get_x11_color_alpha lookup 0xabababababababab "#1a2B3c" initial_state); reflexivity.
Defined.

(* ------------------------------------------------------------------ *)
(** ** [do_gradient] at depth 16: the clamp against [bluemask] *)

Lemma set_up_gradient_wayland (st : state) :
  set_up_gradient wayland_env st
  = {| colour_depth := 16; redmask := 0xF800; greenmask := 0x07E0;
       bluemask := 0x001F; errlog := errlog st |}.
Proof. reflexivity. Qed.

(** C1 (the code at the failing input).  At depth 16 a two-colour gradient
    from pure green, 0x07E0 (what [adjust_colours] makes of 0x00FF00, green
    channel 63), to black does not start at its first colour: the green
    channel of the first element is cut down to [bluemask] = 31, giving
    0x03E0. *)
Theorem do_gradient_first_element_depth16 :
  let st := set_up_gradient wayland_env initial_state in
  let first_colour := fst (adjust_colours wayland_env 0x00FF00 st) in
  colour_depth st = 16 /\
  first_colour = 0x07E0 /\
  green_of st 5 first_colour = 63 /\
  fst (do_gradient wayland_env 2 first_colour 0 st) = [0x03E0; 0] /\
  green_of st 5 (nth 0 (fst (do_gradient wayland_env 2 first_colour 0 st)) 0) = 31.
Proof.
  intros st first_colour.
  split; [vm_compute; reflexivity|].
  split; [vm_compute; reflexivity|].
  split; [vm_compute; reflexivity|].
  split; vm_compute; reflexivity.
Qed.

(** C2 (the code at the failing input).  At depth 16 the green channel
    holds six bits, so its largest value is 63; a gradient of width 3
    between 0x07E0 and 0x07E0 interpolates green between 63 and 63, yet
    every element comes out with green 31: the upper clamp is [bluemask],
    not the channel's own maximum. *)
Theorem do_gradient_green_clamp_depth16 :
  let st := set_up_gradient wayland_env initial_state in
  Z.shiftr (greenmask st) 5 = 63 /\
  bluemask st = 31 /\
  clamp_channel (bluemask st) 63 = 31 /\
  fst (do_gradient wayland_env 3 0x07E0 0x07E0 st) = [0x03E0; 0x03E0; 0x03E0].
Proof.
  intro st.
  split; [vm_compute; reflexivity|].
  split; [vm_compute; reflexivity|].
  split; vm_compute; reflexivity.
Qed.

Lemma clamp_channel_range (blue_mask c3 : Z) :
  0 <= blue_mask < 2 ^ 31 ->
  0 <= clamp_channel blue_mask c3 <= blue_mask.
Proof.
  intros Hb. unfold clamp_channel.
  destruct (Z.ltb_spec c3 0).
  - destruct (Z.ltb_spec blue_mask 0); lia.
  - destruct (Z.ltb_spec blue_mask c3).
    + rewrite to_int_small; lia.
    + lia.
Qed.

(** The integers [lo, lo + 1, ..., lo + n - 1]. *)
Lemma in_map_of_nat_seq (n : nat) (z : Z) :
  0 <= z < Z.of_nat n -> In z (map Z.of_nat (seq 0 n)).
Proof.
  intros Hz. apply in_map_iff. exists (Z.to_nat z). split.
  - lia.
  - apply in_seq. lia.
Qed.

(** Packing three five-bit values at depth 16 and reading the green field
    back gives the middle one. *)
Lemma pack_565_green (st : state) (r g b : Z) :
  greenmask st = 0x07E0 ->
  0 <= r <= 31 -> 0 <= g <= 31 -> 0 <= b <= 31 ->
  green_of st 5
    (to_ulong (Z.lor (Z.lor (to_int (Z.shiftl r 11)) (to_int (Z.shiftl g 5))) b))
  = g.
Proof.
  intros Hmask Hr Hg Hb. unfold green_of. rewrite Hmask.
  pose (range := map Z.of_nat (seq 0 32)).
  assert (Hall :
    forallb (fun r => forallb (fun g => forallb (fun b =>
      to_int (Z.shiftr (Z.land
        (to_ulong (Z.lor (Z.lor (to_int (Z.shiftl r 11)) (to_int (Z.shiftl g 5))) b))
        (to_ulong 0x07E0)) 5) =? g) range) range) range = true)
    by (vm_compute; reflexivity).
  rewrite forallb_forall in Hall.
  specialize (Hall r (in_map_of_nat_seq 32 r ltac:(lia))).
  rewrite forallb_forall in Hall.
  specialize (Hall g (in_map_of_nat_seq 32 g ltac:(lia))).
  rewrite forallb_forall in Hall.
  specialize (Hall b (in_map_of_nat_seq 32 b ltac:(lia))).
  apply Z.eqb_eq. exact Hall.
Qed.

(** X26.  At depth 16 no element of any gradient has a green channel above
    31, whatever the width and the end colours. *)
Lemma do_gradient_green_at_most_31 (env : display_env) (width c1 c2 : Z)
    (st : state) (x : Z) :
  colour_depth st = 16 -> greenmask st = 0x07E0 -> bluemask st = 0x001F ->
  In x (fst (do_gradient env width c1 c2 st)) ->
  0 <= green_of st 5 x <= 31.
Proof.
  intros Hd Hg Hb Hin. unfold do_gradient in Hin. cbn [fst] in Hin.
  rewrite ensure_depth_initialised in Hin by (rewrite Hd; discriminate).
  apply in_map_iff in Hin. destruct Hin as [i [<- _]].
  rewrite Hd. change (to_short (Z.quot (2 * 16) 3 + Z.rem 16 3)) with 11.
  change (to_short (Z.quot 16 3)) with 5.
  unfold gradient_entry. rewrite Hb.
  rewrite pack_565_green; try exact Hg; apply clamp_channel_range; lia.
Qed.

(** The shifts are taken from [colour_depth] before the lazy set-up runs:
    a gradient requested while the depth is still unset is built with both
    shifts 0.  From pure red (0xF800) to black it starts at 0x001F, pure
    blue; once the depth is set the same call starts at 0xF800. *)
Lemma do_gradient_before_set_up :
  fst (do_gradient wayland_env 2 0xF800 0 initial_state) = [0x001F; 0] /\
  fst (do_gradient wayland_env 2 0xF800 0
         (set_up_gradient wayland_env initial_state)) = [0xF800; 0].
Proof. split; vm_compute; reflexivity. Qed.

(* ------------------------------------------------------------------ *)
(** ** Conversion of an [int] to [float], and the factor at both ends *)

Lemma digits2_pos_bounds (p : positive) :
  2 ^ (Zpos (digits2_pos p) - 1) <= Zpos p < 2 ^ Zpos (digits2_pos p).
Proof.
  induction p as [p IH | p IH |]; cbn [digits2_pos].
  - rewrite Pos2Z.inj_succ.
    replace (Z.succ (Zpos (digits2_pos p)) - 1) with (Z.succ (Zpos (digits2_pos p) - 1)) by lia.
    rewrite !Z.pow_succ_r by lia. lia.
  - rewrite Pos2Z.inj_succ.
    replace (Z.succ (Zpos (digits2_pos p)) - 1) with (Z.succ (Zpos (digits2_pos p) - 1)) by lia.
    rewrite !Z.pow_succ_r by lia. lia.
  - cbn. lia.
Qed.

Lemma shr_1_mantissa (mrs : shr_record) :
  0 <= shr_m mrs -> shr_m (shr_1 mrs) = shr_m mrs / 2.
Proof.
  destruct mrs as [m r s]. cbn [shr_m]. intros Hm.
  destruct m as [|[p|p|]|p]; cbn [shr_1 shr_m].
  - reflexivity.
  - apply Z.div_unique with (r := 1); lia.
  - apply Z.div_unique with (r := 0); lia.
  - reflexivity.
  - lia.
Qed.

Lemma iter_shr_1_mantissa (k : positive) :
  forall mrs : shr_record,
    0 <= shr_m mrs ->
    shr_m (iter_pos shr_1 k mrs) = shr_m mrs / 2 ^ Zpos k.
Proof.
  induction k as [k IH | k IH |]; intros mrs Hm; cbn [iter_pos].
  - assert (H1 : 0 <= shr_m (shr_1 mrs))
      by (rewrite shr_1_mantissa by exact Hm; apply Z.div_pos; lia).
    assert (H2 : 0 <= shr_m (iter_pos shr_1 k (shr_1 mrs)))
      by (rewrite IH by exact H1; apply Z.div_pos; [exact H1 | lia]).
    rewrite IH by exact H2. rewrite IH by exact H1.
    rewrite shr_1_mantissa by exact Hm.
    rewrite !Z.div_div by lia.
    f_equal. rewrite (Pos2Z.inj_xI k).
    replace (2 * Z.pos k + 1) with (Z.succ (Z.pos k + Z.pos k)) by lia.
    rewrite Z.pow_succ_r by lia. rewrite Z.pow_add_r by lia. reflexivity.
  - assert (H2 : 0 <= shr_m (iter_pos shr_1 k mrs))
      by (rewrite IH by exact Hm; apply Z.div_pos; [exact Hm | lia]).
    rewrite IH by exact H2. rewrite IH by exact Hm.
    rewrite !Z.div_div by lia.
    f_equal. rewrite (Pos2Z.inj_xO k), Z.pow_twice_r. reflexivity.
  - rewrite shr_1_mantissa by exact Hm. reflexivity.
Qed.

Lemma shr_record_of_loc_mantissa (m : Z) (l : location) :
  shr_m (shr_record_of_loc m l) = m.
Proof. destruct l as [|[]]; reflexivity. Qed.

Lemma round_nearest_even_range (m : Z) (l : location) :
  m <= round_nearest_even m l <= m + 1.
Proof.
  destruct l as [|[]]; cbn [round_nearest_even]; try lia.
  destruct (Z.even m); lia.
Qed.

Lemma fexp32 (x : Z) : fexp 24 128 x = Z.max (x - 24) (-149).
Proof. reflexivity. Qed.

(** Aligning a positive mantissa at an exponent not below -149 leaves a
    positive mantissa, and moves the exponent up by the excess of digits
    over 24. *)
Lemma shr_fexp_positive (m : positive) (e : Z) (l : location) :
  -149 <= e ->
  0 < shr_m (fst (shr_fexp 24 128 (Zpos m) e l)) <= Zpos m /\
  e <= snd (shr_fexp 24 128 (Zpos m) e l)
    <= e + Z.max 0 (Zpos (digits2_pos m) - 24).
Proof.
  intros He. unfold shr_fexp, shr. rewrite fexp32. cbn [Zdigits2].
  pose proof (digits2_pos_bounds m) as [Hlo Hhi].
  destruct (Z.max (Zpos (digits2_pos m) + e - 24) (-149) - e) as [|k|k] eqn:Hn;
    cbn [fst snd]; rewrite ?shr_record_of_loc_mantissa; try lia.
  rewrite iter_shr_1_mantissa
    by (rewrite shr_record_of_loc_mantissa; lia).
  rewrite shr_record_of_loc_mantissa.
  assert (Hk : Zpos k = Zpos (digits2_pos m) - 24) by lia.
  assert (Hpow : 2 ^ Zpos k <= 2 ^ (Zpos (digits2_pos m) - 1))
    by (apply Z.pow_le_mono_r; lia).
  assert (Hpos : 0 < 2 ^ Zpos k) by (apply Z.pow_pos_nonneg; lia).
  split; [split|lia].
  - apply Z.div_str_pos. lia.
  - apply Z.div_le_upper_bound; [exact Hpos | nia].
Qed.

Lemma digits2_pos_upper (m : positive) (d : Z) :
  0 <= d -> Zpos m <= 2 ^ d -> Zpos (digits2_pos m) <= d + 1.
Proof.
  intros Hd Hm. pose proof (digits2_pos_bounds m) as [Hlo _].
  assert (H : Zpos (digits2_pos m) - 1 <= d).
  { apply (Z.pow_le_mono_r_iff 2); lia. }
  lia.
Qed.

(** Rounding a positive mantissa at a moderate exponent yields a finite,
    non-zero binary32 number of the same sign. *)
Lemma binary_round_aux_finite (s : bool) (m : positive) (e : Z) :
  -149 <= e -> e + 2 * Zpos (digits2_pos m) <= 100 ->
  exists m' e', binary_round_aux 24 128 s (Zpos m) e loc_Exact = S754_finite s m' e'.
Proof.
  intros He Hd. unfold binary_round_aux.
  pose proof (shr_fexp_positive m e loc_Exact He) as [[Hm1 Hm1'] He1].
  destruct (shr_fexp 24 128 (Zpos m) e loc_Exact) as [mrs1 e1]. cbn [fst snd] in *.
  pose proof (round_nearest_even_range (shr_m mrs1) (loc_of_shr_record mrs1)) as Hr.
  destruct (round_nearest_even (shr_m mrs1) (loc_of_shr_record mrs1)) as [|m2|m2] eqn:Hm2;
    try lia.
  pose proof (digits2_pos_bounds m) as [_ Hhi].
  assert (Hd2 : Zpos (digits2_pos m2) <= Zpos (digits2_pos m) + 1)
    by (apply digits2_pos_upper; lia).
  pose proof (shr_fexp_positive m2 e1 loc_Exact ltac:(lia)) as [[Hm3 _] He2].
  destruct (shr_fexp 24 128 (Zpos m2) e1 loc_Exact) as [mrs2 e2]. cbn [fst snd] in *.
  destruct (shr_m mrs2) as [|m3|m3]; try lia.
  destruct (Z.leb_spec e2 (128 - 24)) as [_ | Hbig]; [|lia].
  exists m3, e2. reflexivity.
Qed.

Lemma digits2_pos_iter_xO (p k : positive) :
  digits2_pos (Pos.iter xO p k) = (digits2_pos p + k)%positive.
Proof.
  induction k as [|k IH] using Pos.peano_ind.
  - cbn. lia.
  - rewrite Pos.iter_succ. cbn [digits2_pos]. rewrite IH. lia.
Qed.

(** Every positive [int] converts to a finite positive [float]. *)
Lemma F32_of_int_positive (z : Z) :
  0 < z < 2 ^ 31 ->
  exists m e, F32.of_int z = S754_finite false m e.
Proof.
  intros Hz. destruct z as [|p|p]; try lia.
  unfold F32.of_int, binary_normalize, binary_round, shl_align.
  change F32.prec with 24. change F32.emax with 128. rewrite fexp32.
  pose proof (digits2_pos_bounds p) as [Hlo Hhi].
  assert (Hd : Zpos (digits2_pos p) <= 31).
  { assert (Zpos (digits2_pos p) - 1 < 31); [|lia].
    apply (Z.pow_lt_mono_r_iff 2); lia. }
  destruct (Z.max (Zpos (digits2_pos p) + 0 - 24) (-149) - 0) as [|k|k] eqn:Hk.
  - apply binary_round_aux_finite; lia.
  - apply binary_round_aux_finite; lia.
  - apply binary_round_aux_finite; [lia|].
    rewrite digits2_pos_iter_xO. lia.
Qed.

Lemma F32_div_same (m : positive) (e : Z) :
  F32.div (S754_finite false m e) (S754_finite false m e) = F32.one.
Proof.
  unfold F32.div, SFdiv, SFdiv_core_binary.
  change F32.prec with 24. change F32.emax with 128.
  rewrite Z.sub_diag. rewrite Z.sub_diag.
  change (Z.min (fexp 24 128 0) 0) with (-24).
  change (0 - -24) with 24.
  cbv beta iota zeta.
  assert (Hdiv : Z.div_eucl (Z.shiftl (Zpos m) 24) (Zpos m) = (2 ^ 24, 0)).
  { rewrite Z.shiftl_mul_pow2 by lia. rewrite Z.mul_comm.
    destruct (Z.div_eucl (2 ^ 24 * Zpos m) (Zpos m)) as [q r] eqn:E.
    assert (Hq : q = 2 ^ 24 * Zpos m / Zpos m)
      by (unfold Z.div; rewrite E; reflexivity).
    assert (Hr : r = (2 ^ 24 * Zpos m) mod Zpos m)
      by (unfold Z.modulo; rewrite E; reflexivity).
    rewrite Z.div_mul in Hq by lia. rewrite Z.mod_mul in Hr by lia.
    subst q r. reflexivity. }
  rewrite Hdiv.
  assert (Hloc : new_location (Zpos m) 0 = loc_Exact).
  { unfold new_location. destruct (Z.even (Zpos m)); reflexivity. }
  rewrite Hloc. vm_compute. reflexivity.
Qed.

(* ------------------------------------------------------------------ *)
(** ** [do_gradient] at depth 24: the two ends *)

(** The interpolation factor at the two ends of the loop. *)
Lemma factor_first (width : Z) :
  2 <= width < 2 ^ 31 ->
  F32.div (F32.of_int 0) (F32.of_int (to_int (width - 1))) = F32.zero.
Proof.
  intros Hw. rewrite to_int_small by lia.
  destruct (F32_of_int_positive (width - 1)) as [m [e ->]]; [lia|].
  reflexivity.
Qed.

Lemma factor_last (width : Z) :
  2 <= width < 2 ^ 31 ->
  F32.div (F32.of_int (width - 1)) (F32.of_int (to_int (width - 1))) = F32.one.
Proof.
  intros Hw. rewrite to_int_small by lia.
  destruct (F32_of_int_positive (width - 1)) as [m [e ->]]; [lia|].
  apply F32_div_same.
Qed.

(** The channel offsets at factor 0 and at factor 1, for every difference
    an eight-bit channel can show. *)
Lemma channel_offset_table :
  forallb (fun d =>
    (channel_offset F32.zero d 0 d =? 0) && (channel_offset F32.zero 0 d d =? 0)
    && (channel_offset F32.one d 0 d =? - d) && (channel_offset F32.one 0 d d =? d))
    (map Z.of_nat (seq 0 256)) = true.
Proof. vm_compute. reflexivity. Qed.

Lemma channel_diff_small (c1 c2 : Z) :
  0 <= c1 <= 255 -> 0 <= c2 <= 255 -> channel_diff c1 c2 = Z.abs (c1 - c2).
Proof.
  intros H1 H2. unfold channel_diff.
  rewrite (to_int_small (c1 - c2)) by lia. apply to_int_small. lia.
Qed.

Lemma channel_offset_ends (c1 c2 : Z) :
  0 <= c1 <= 255 -> 0 <= c2 <= 255 ->
  channel_offset F32.zero c1 c2 (channel_diff c1 c2) = 0 /\
  channel_offset F32.one c1 c2 (channel_diff c1 c2) = c2 - c1.
Proof.
  intros H1 H2. rewrite channel_diff_small by assumption.
  pose proof channel_offset_table as Htab. rewrite forallb_forall in Htab.
  assert (Hin : In (Z.abs (c1 - c2)) (map Z.of_nat (seq 0 256)))
    by (apply in_map_of_nat_seq; lia).
  specialize (Htab _ Hin).
  rewrite !andb_true_iff, !Z.eqb_eq in Htab.
  destruct Htab as [[[Hz1 Hz2] Ho1] Ho2].
  unfold channel_offset in *.
  destruct (Z.leb_spec c2 c1) as [Hle | Hgt].
  - destruct (Z.leb_spec 0 (Z.abs (c1 - c2))); [|lia].
    split; [exact Hz1 | rewrite Ho1; lia].
  - destruct (Z.leb_spec (Z.abs (c1 - c2)) 0); [lia|].
    split; [exact Hz2 | rewrite Ho2; lia].
Qed.

Lemma clamp_channel_inside (blue_mask c3 : Z) :
  0 <= c3 <= blue_mask -> clamp_channel blue_mask c3 = c3.
Proof.
  intros H. unfold clamp_channel.
  destruct (Z.ltb_spec c3 0); [lia|].
  destruct (Z.ltb_spec blue_mask c3); [lia | reflexivity].
Qed.

(** An eight-bit field of a colour, and the field put back in place. *)
Lemma byte_field (c shift : Z) :
  0 <= shift ->
  Z.shiftr (Z.land c (Z.shiftl 0xff shift)) shift = Z.land (Z.shiftr c shift) 0xff.
Proof.
  intros Hs. rewrite Z.shiftr_land. rewrite Z.shiftr_shiftl_l by lia.
  rewrite Z.sub_diag. reflexivity.
Qed.

Lemma byte_field_range (x : Z) : 0 <= Z.land x 0xff <= 255.
Proof.
  change (Z.land x 0xff) with (Z.land x (Z.ones 8)). rewrite Z.land_ones by lia.
  pose proof (Z.mod_pos_bound x (2 ^ 8) ltac:(lia)). lia.
Qed.

Lemma byte_field_back (c shift : Z) :
  0 <= shift ->
  Z.shiftl (Z.land (Z.shiftr c shift) 0xff) shift = Z.land c (Z.shiftl 0xff shift).
Proof.
  intros Hs. rewrite Z.shiftl_land.
  rewrite <- Z.ldiff_ones_r by lia.
  apply Z.bits_inj'. intros n Hn.
  rewrite !Z.land_spec, Z.ldiff_spec, Z.shiftl_spec by lia.
  destruct (Z.ltb_spec n shift) as [Hlt | Hge].
  - rewrite (Z.testbit_neg_r _ (n - shift)) by lia.
    rewrite !andb_false_r. reflexivity.
  - rewrite Z.ones_spec_high by lia. rewrite andb_true_r. reflexivity.
Qed.

Lemma byte_field_shifted_range (x shift : Z) :
  0 <= shift <= 16 -> 0 <= Z.shiftl (Z.land x 0xff) shift < 2 ^ 31.
Proof.
  intros Hs. pose proof (byte_field_range x) as Hx.
  rewrite Z.shiftl_mul_pow2 by lia.
  assert (Hp : 0 < 2 ^ shift <= 2 ^ 16)
    by (split; [apply Z.pow_pos_nonneg; lia | apply Z.pow_le_mono_r; lia]).
  change (2 ^ 16) with 65536 in Hp. change (2 ^ 31) with 2147483648. nia.
Qed.

Section TrueColour.

Variable st : state.
Hypothesis Hst : true_colour st.

Lemma red_of_true_colour (c : Z) :
  red_of st 16 c = Z.land (Z.shiftr c 16) 0xff.
Proof.
  destruct Hst as (_ & Hr & _ & _). unfold red_of. rewrite Hr.
  change (to_ulong 0xff0000) with (Z.shiftl 0xff 16).
  rewrite byte_field by lia. apply to_int_small.
  pose proof (byte_field_range (Z.shiftr c 16)). lia.
Qed.

Lemma green_of_true_colour (c : Z) :
  green_of st 8 c = Z.land (Z.shiftr c 8) 0xff.
Proof.
  destruct Hst as (_ & _ & Hg & _). unfold green_of. rewrite Hg.
  change (to_ulong 0x00ff00) with (Z.shiftl 0xff 8).
  rewrite byte_field by lia. apply to_int_small.
  pose proof (byte_field_range (Z.shiftr c 8)). lia.
Qed.

Lemma blue_of_true_colour (c : Z) :
  blue_of st c = Z.land c 0xff.
Proof.
  destruct Hst as (_ & _ & _ & Hb). unfold blue_of. rewrite Hb.
  change (to_ulong 0x0000ff) with 0xff. apply to_int_small.
  pose proof (byte_field_range c). lia.
Qed.

(** Three eight-bit channels taken from a colour and packed again give the
    low 24 bits of that colour. *)
Lemma pack_888 (c : Z) :
  to_ulong
    (Z.lor (Z.lor (to_int (Z.shiftl (Z.land (Z.shiftr c 16) 0xff) 16))
                  (to_int (Z.shiftl (Z.land (Z.shiftr c 8) 0xff) 8)))
           (Z.land c 0xff))
  = Z.land c 0xffffff.
Proof.
  rewrite (to_int_small (Z.shiftl (Z.land (Z.shiftr c 16) 0xff) 16))
    by (pose proof (byte_field_shifted_range (Z.shiftr c 16) 16); lia).
  rewrite (to_int_small (Z.shiftl (Z.land (Z.shiftr c 8) 0xff) 8))
    by (pose proof (byte_field_shifted_range (Z.shiftr c 8) 8); lia).
  rewrite !byte_field_back by lia.
  rewrite <- !Z.land_lor_distr_r.
  change (Z.lor (Z.lor (Z.shiftl 0xff 16) (Z.shiftl 0xff 8)) 0xff) with (Z.ones 24).
  change 0xffffff with (Z.ones 24).
  rewrite Z.land_ones by lia.
  unfold to_ulong, wrap_unsigned. apply Z.mod_small.
  pose proof (Z.mod_pos_bound c (2 ^ 24) ltac:(lia)). lia.
Qed.

(** One channel of a gradient entry at factor 0 and at factor 1. *)
Lemma channel_first (c1 c2 : Z) :
  0 <= c1 <= 255 -> 0 <= c2 <= 255 ->
  clamp_channel (bluemask st)
    (to_int (channel_offset F32.zero c1 c2 (channel_diff c1 c2) + c1)) = c1.
Proof.
  intros H1 H2. destruct Hst as (_ & _ & _ & ->).
  destruct (channel_offset_ends c1 c2 H1 H2) as [-> _].
  rewrite Z.add_0_l, to_int_small by lia.
  apply clamp_channel_inside. lia.
Qed.

Lemma channel_last (c1 c2 : Z) :
  0 <= c1 <= 255 -> 0 <= c2 <= 255 ->
  clamp_channel (bluemask st)
    (to_int (channel_offset F32.one c1 c2 (channel_diff c1 c2) + c1)) = c2.
Proof.
  intros H1 H2. destruct Hst as (_ & _ & _ & ->).
  destruct (channel_offset_ends c1 c2 H1 H2) as [_ ->].
  replace (c2 - c1 + c1) with c2 by lia.
  rewrite to_int_small by lia.
  apply clamp_channel_inside. lia.
Qed.

Lemma gradient_entry_first (width c1 c2 : Z) :
  2 <= width < 2 ^ 31 ->
  gradient_entry st 16 8 width c1 c2 0 = Z.land c1 0xffffff.
Proof.
  intros Hw. unfold gradient_entry.
  rewrite (factor_first width Hw).
  rewrite !red_of_true_colour, !green_of_true_colour, !blue_of_true_colour.
  rewrite !channel_first by apply byte_field_range.
  apply pack_888.
Qed.

Lemma gradient_entry_last (width c1 c2 : Z) :
  2 <= width < 2 ^ 31 ->
  gradient_entry st 16 8 width c1 c2 (width - 1) = Z.land c2 0xffffff.
Proof.
  intros Hw. unfold gradient_entry.
  rewrite (factor_last width Hw).
  rewrite !red_of_true_colour, !green_of_true_colour, !blue_of_true_colour.
  rewrite !channel_last by apply byte_field_range.
  apply pack_888.
Qed.

(** X25.  At depth 24 a gradient of any width from 2 up has exactly [width]
    elements, starts at the first colour and ends at the last one (their
    red, green and blue bytes). *)
Theorem do_gradient_endpoints_true_colour (env : display_env) (width c1 c2 : Z) :
  2 <= width < 2 ^ 31 ->
  List.length (fst (do_gradient env width c1 c2 st)) = Z.to_nat width /\
  hd 0 (fst (do_gradient env width c1 c2 st)) = Z.land c1 0xffffff /\
  last (fst (do_gradient env width c1 c2 st)) 0 = Z.land c2 0xffffff.
Proof.
  intros Hw. split.
  - rewrite do_gradient_length. f_equal. lia.
  - unfold do_gradient. cbn [fst].
    destruct Hst as (Hd & _).
    rewrite ensure_depth_initialised by (rewrite Hd; discriminate).
    rewrite Hd.
    change (to_short (Z.quot (2 * 24) 3 + Z.rem 24 3)) with 16.
    change (to_short (Z.quot 24 3)) with 8.
    replace (Z.max 2 width) with width by lia.
    assert (Hn : Z.to_nat width = S (Z.to_nat (width - 1))) by lia.
    rewrite Hn. split.
    + cbn [seq map hd]. apply gradient_entry_first. exact Hw.
    + rewrite seq_S, map_app. cbn [map]. rewrite last_last. cbn [Nat.add].
      replace (Z.of_nat (Z.to_nat (width - 1))) with (width - 1) by lia.
      apply gradient_entry_last. exact Hw.
Qed.

End TrueColour.

Lemma set_up_gradient_true_colour (st : state) :
  true_colour (set_up_gradient {| out_to_x := true; DisplayPlanes := 24 |} st).
Proof. repeat split. Qed.

(** Five steps from red to blue at depth 24: the factors are 0, 1/4, 1/2,
    3/4 and 1, and each channel moves by 255 times the factor, rounded by
    the added (or subtracted) 0.5 and the truncation. *)
Example do_gradient_red_to_blue :
  let env := {| out_to_x := true; DisplayPlanes := 24 |} in
  fst (do_gradient env 5 0xFF0000 0x0000FF (set_up_gradient env initial_state))
  = [0xFF0000; 0xBF0040; 0x7F0080; 0x4000BF; 0x0000FF].
Proof. vm_compute. reflexivity. Qed.

(* ------------------------------------------------------------------ *)
(** ** The masks of [set_up_gradient] *)

Lemma set_up_gradient_masks_table :
  forallb (fun planes =>
    let st := set_up_gradient {| out_to_x := true; DisplayPlanes := planes |} initial_state in
    (colour_depth st =? planes)
    && (bluemask st =? 2 ^ (planes / 3) - 1)
    && (Z.land (redmask st) (greenmask st) =? 0)
    && (Z.land (greenmask st) (bluemask st) =? 0)
    && (Z.land (redmask st) (bluemask st) =? 0)
    && Bool.eqb (Z.lor (Z.lor (redmask st) (greenmask st)) (bluemask st) =? 2 ^ planes - 1)
                (negb (planes mod 3 =? 2)))
    (map Z.of_nat (seq 0 33)) = true.
Proof. vm_compute. reflexivity. Qed.

(** X1.  For every X display depth from 0 to 32 planes the three masks
    [set_up_gradient] computes are pairwise disjoint and the blue mask is the
    low [depth / 3] bits; together they are exactly the low [depth] bits
    if and only if the depth is not 2 modulo 3 (for depths 8, 32, ... three
    bits below the red mask stay unused). *)
Theorem set_up_gradient_masks (planes : Z) (st : state) :
  0 <= planes <= 32 ->
  let st' := set_up_gradient {| out_to_x := true; DisplayPlanes := planes |} st in
  colour_depth st' = planes /\
  bluemask st' = 2 ^ (planes / 3) - 1 /\
  Z.land (redmask st') (greenmask st') = 0 /\
  Z.land (greenmask st') (bluemask st') = 0 /\
  Z.land (redmask st') (bluemask st') = 0 /\
  (Z.lor (Z.lor (redmask st') (greenmask st')) (bluemask st') = 2 ^ planes - 1
   <-> planes mod 3 <> 2).
Proof.
  intros Hp st'.
  pose proof set_up_gradient_masks_table as Htab. rewrite forallb_forall in Htab.
  assert (Hin : In planes (map Z.of_nat (seq 0 33)))
    by (apply in_map_of_nat_seq; lia).
  specialize (Htab planes Hin). cbv zeta in Htab.
  change (colour_depth (set_up_gradient {| out_to_x := true; DisplayPlanes := planes |} initial_state))
    with (colour_depth st') in Htab.
  change (redmask (set_up_gradient {| out_to_x := true; DisplayPlanes := planes |} initial_state))
    with (redmask st') in Htab.
  change (greenmask (set_up_gradient {| out_to_x := true; DisplayPlanes := planes |} initial_state))
    with (greenmask st') in Htab.
  change (bluemask (set_up_gradient {| out_to_x := true; DisplayPlanes := planes |} initial_state))
    with (bluemask st') in Htab.
  rewrite !andb_true_iff, !Z.eqb_eq in Htab.
  destruct Htab as [[[[[H1 H2] H3] H4] H5] H6].
  repeat (split; [assumption|]).
  apply Bool.eqb_prop in H6.
  split.
  - intros Hall Hmod. apply Z.eqb_eq in Hall. rewrite Hall in H6.
    apply Z.eqb_eq in Hmod. rewrite Hmod in H6. discriminate.
  - intros Hmod. apply Z.eqb_eq. rewrite H6.
    apply negb_true_iff. apply Z.eqb_neq. exact Hmod.
Qed.

Lemma set_up_gradient_masks_witness :
  0 <= 16 <= 32 /\
  let st' := set_up_gradient {| out_to_x := true; DisplayPlanes := 16 |} initial_state in
  colour_depth st' = 16 /\
  bluemask st' = 2 ^ (16 / 3) - 1 /\
  Z.land (redmask st') (greenmask st') = 0 /\
  Z.land (greenmask st') (bluemask st') = 0 /\
  Z.land (redmask st') (bluemask st') = 0 /\
  (Z.lor (Z.lor (redmask st') (greenmask st')) (bluemask st') = 2 ^ 16 - 1
   <-> 16 mod 3 <> 2).
Proof.
  split; [lia|].
  apply (set_up_gradient_masks 16 initial_state). lia.
Defined.

(* ------------------------------------------------------------------ *)
(** ** The 16-bit quantisation in closed form *)

Lemma scale_channel_table :
  forallb (fun v =>
    (scale_channel v CONST_8_TO_5_BITS =? (if v =? 255 then 30 else v * 31 / 255))
    && (scale_channel v CONST_8_TO_6_BITS =? v * 63 / 255))
    (map Z.of_nat (seq 0 256)) = true.
Proof. vm_compute. reflexivity. Qed.

Lemma scale_channel_values (v : Z) :
  0 <= v <= 255 ->
  scale_channel v CONST_8_TO_5_BITS = (if v =? 255 then 30 else v * 31 / 255) /\
  scale_channel v CONST_8_TO_6_BITS = v * 63 / 255.
Proof.
  intros Hv. pose proof scale_channel_table as Htab.
  rewrite forallb_forall in Htab.
  assert (Hin : In v (map Z.of_nat (seq 0 256)))
    by (apply in_map_of_nat_seq; lia).
  specialize (Htab v Hin).
  rewrite andb_true_iff, !Z.eqb_eq in Htab. exact Htab.
Qed.

Lemma scale_channel_range (v : Z) :
  0 <= v <= 255 ->
  0 <= scale_channel v CONST_8_TO_5_BITS <= 30 /\
  0 <= scale_channel v CONST_8_TO_6_BITS <= 63.
Proof.
  intros Hv. destruct (scale_channel_values v Hv) as [-> ->].
  split.
  - destruct (Z.eqb_spec v 255); [lia|].
    split; [apply Z.div_pos; lia|].
    assert (v * 31 / 255 < 31) by (apply Z.div_lt_upper_bound; lia). lia.
  - split; [apply Z.div_pos; lia|].
    apply Z.div_le_upper_bound; lia.
Qed.

Lemma lor_below_pow2 (a b n : Z) :
  0 <= n -> 0 <= a < 2 ^ n -> 0 <= b < 2 ^ n -> 0 <= Z.lor a b < 2 ^ n.
Proof.
  intros Hn Ha Hb. split.
  - apply Z.lor_nonneg. lia.
  - destruct (Z.eq_dec (Z.lor a b) 0) as [E | NE].
    + rewrite E. apply Z.pow_pos_nonneg; lia.
    + assert (Hpos : 0 < Z.lor a b) by (pose proof (proj2 (Z.lor_nonneg a b)); lia).
      apply Z.log2_lt_pow2; [exact Hpos|].
      rewrite Z.log2_lor by lia.
      destruct (Z.eq_dec a 0) as [-> | Ha0]; destruct (Z.eq_dec b 0) as [-> | Hb0].
      * exfalso. apply NE. reflexivity.
      * rewrite Z.max_r by (cbn; apply Z.log2_nonneg).
        apply Z.log2_lt_pow2; lia.
      * rewrite Z.max_l by (cbn; apply Z.log2_nonneg).
        apply Z.log2_lt_pow2; lia.
      * apply Z.max_lub_lt; apply Z.log2_lt_pow2; lia.
Qed.

Lemma to_uint_small (z : Z) : 0 <= z < 2 ^ 32 -> to_uint z = z.
Proof. intros Hz. unfold to_uint, wrap_unsigned. apply Z.mod_small. exact Hz. Qed.

(** X2.  At depth 16 [adjust_colours] maps the colour with bytes r, g, b
    (bits 16..23, 8..15 and 0..7; higher bits are ignored) to the 5/6/5
    value with green [g * 63 / 255] and with red and blue [v * 31 / 255],
    except that 255 gives 30, not 31; the result is below 2^16. *)
Theorem adjust_colours_depth16 (env : display_env) (st : state) (c : Z) :
  colour_depth (ensure_depth env st) = 16 ->
  let q5 := fun v => if v =? 255 then 30 else v * 31 / 255 in
  let q6 := fun v => v * 63 / 255 in
  let r := Z.land (Z.shiftr c 16) 0xff in
  let g := Z.land (Z.shiftr c 8) 0xff in
  let b := Z.land c 0xff in
  fst (adjust_colours env c st)
  = Z.lor (Z.lor (Z.shiftl (q5 r) 11) (Z.shiftl (q6 g) 5)) (q5 b) /\
  0 <= fst (adjust_colours env c st) < 2 ^ 16.
Proof.
  intros Hd q5 q6 r g b. unfold adjust_colours.
  rewrite Hd. cbn [Z.eqb Pos.eqb fst].
  change 0xff0000 with (Z.shiftl 0xff 16). change 0xff00 with (Z.shiftl 0xff 8).
  rewrite !byte_field by lia. fold r g.
  change (Z.land c 255) with b.
  pose proof (byte_field_range (Z.shiftr c 16)) as Hr. fold r in Hr.
  pose proof (byte_field_range (Z.shiftr c 8)) as Hg. fold g in Hg.
  pose proof (byte_field_range c) as Hb. fold b in Hb.
  destruct (scale_channel_values r Hr) as [Er _].
  destruct (scale_channel_values g Hg) as [_ Eg].
  destruct (scale_channel_values b Hb) as [Eb _].
  destruct (scale_channel_range r Hr) as [Rr _].
  destruct (scale_channel_range g Hg) as [_ Rg].
  destruct (scale_channel_range b Hb) as [Rb _].
  rewrite Er in *. rewrite Eg in *. rewrite Eb in *.
  fold (q5 r) in *. fold (q6 g) in *. fold (q5 b) in *.
  assert (H11 : 0 <= Z.shiftl (q5 r) 11 < 2 ^ 16)
    by (rewrite Z.shiftl_mul_pow2 by lia; change (2 ^ 11) with 2048;
        change (2 ^ 16) with 65536; lia).
  assert (H5 : 0 <= Z.shiftl (q6 g) 5 < 2 ^ 16)
    by (rewrite Z.shiftl_mul_pow2 by lia; change (2 ^ 5) with 32;
        change (2 ^ 16) with 65536; lia).
  change (2 ^ 16) with 65536 in *.
  rewrite (to_int_small (Z.shiftl (q5 r) 11)) by lia.
  rewrite (to_int_small (Z.shiftl (q6 g) 5)) by lia.
  rewrite !to_uint_small by lia.
  split; [reflexivity|].
  change 65536 with (2 ^ 16).
  apply lor_below_pow2; [lia | | lia].
  apply lor_below_pow2; lia.
Qed.

Lemma adjust_colours_depth16_witness :
  colour_depth (ensure_depth wayland_env initial_state) = 16 /\
  let q5 := fun v => if v =? 255 then 30 else v * 31 / 255 in
  let q6 := fun v => v * 63 / 255 in
  let r := Z.land (Z.shiftr 0xFFFFFF 16) 0xff in
  let g := Z.land (Z.shiftr 0xFFFFFF 8) 0xff in
  let b := Z.land 0xFFFFFF 0xff in
  fst (adjust_colours wayland_env 0xFFFFFF initial_state)
  = Z.lor (Z.lor (Z.shiftl (q5 r) 11) (Z.shiftl (q6 g) 5)) (q5 b) /\
  0 <= fst (adjust_colours wayland_env 0xFFFFFF initial_state) < 2 ^ 16.
Proof.
  split; [reflexivity|].
  apply (adjust_colours_depth16 wayland_env initial_state 0xFFFFFF). reflexivity.
Defined.

(* ------------------------------------------------------------------ *)
(** ** Hex colours as numbers, and what [set_foreground_color] reads back *)

Lemma hex_nibble_value_digit (c : ascii) :
  is_hex_digit c = true -> 0 <= hex_nibble_value c <= 15.
Proof.
  destruct c as [b0 b1 b2 b3 b4 b5 b6 b7].
  destruct b0, b1, b2, b3, b4, b5, b6, b7; intros H; try discriminate H;
    vm_compute; split; discriminate.
Qed.

Lemma hex_byte (n1 n2 : Z) :
  0 <= n1 <= 15 -> 0 <= n2 <= 15 ->
  ((n1 <? 0) || (n2 <? 0) = false) /\
  to_uchar (to_int (Z.shiftl n1 4 + n2)) = n1 * 16 + n2.
Proof.
  intros H1 H2. split.
  - destruct (Z.ltb_spec n1 0); [lia|]. destruct (Z.ltb_spec n2 0); [lia|]. reflexivity.
  - rewrite Z.shiftl_mul_pow2 by lia. change (2 ^ 4) with 16.
    rewrite to_int_small by lia.
    unfold to_uchar, wrap_unsigned. apply Z.mod_small. change (2 ^ 8) with 256. lia.
Qed.

Section HexColours.

Variable OsLookupColor : string -> option (Z * Z * Z).

(** X3.  On the hex path a string of six hexadecimal digits (after the
    optional marker) yields a colour whose 32 bits are 256 times the number
    the digits spell, plus 0xff; a string of eight yields the number itself;
    this holds whatever the bytes of [out] that the copy does not write
    hold, and nothing is logged. *)
Theorem get_x11_color_hex_value (uninit : Z) (name : string) (st : state) :
  OsLookupColor name = None ->
  all_hex (skip_marker name) = true ->
  (String.length (skip_marker name) = 6%nat ->
   to_uint (fst (get_x11_color OsLookupColor uninit name st))
   = hex_value (skip_marker name) * 256 + 255 /\
   snd (get_x11_color OsLookupColor uninit name st) = st) /\
  (String.length (skip_marker name) = 8%nat ->
   to_uint (fst (get_x11_color OsLookupColor uninit name st))
   = hex_value (skip_marker name) /\
   snd (get_x11_color OsLookupColor uninit name st) = st).
Proof.
  intros Hlookup Hhex. unfold get_x11_color. rewrite Hlookup.
  rewrite strlen_six_or_eight.
  remember (skip_marker name) as s eqn:Hs. clear Hs.
  split; intros Hlen; rewrite Hlen; cbn [Nat.eqb orb].
  - destruct s as [|c1 [|c2 [|c3 [|c4 [|c5 [|c6 [|c7 s]]]]]]]; try discriminate Hlen.
    cbn [all_hex] in Hhex. rewrite !andb_true_iff in Hhex.
    destruct Hhex as (H1 & H2 & H3 & H4 & H5 & H6 & _).
    apply hex_nibble_value_digit in H1, H2, H3, H4, H5, H6.
    unfold hex_value. cbn [parse_hex_pairs hex_value_from].
    destruct (hex_byte _ _ H1 H2) as [-> ->].
    destruct (hex_byte _ _ H3 H4) as [-> ->].
    destruct (hex_byte _ _ H5 H6) as [-> ->].
    cbn [array_set Nat.sub fst snd]. split; [|reflexivity].
    rewrite memcpy_long_low. cbn [nth].
    rewrite !Z.shiftl_mul_pow2 by lia.
    unfold to_uint, wrap_unsigned.
    change (2 ^ 8) with 256. change (2 ^ 16) with 65536.
    change (2 ^ 24) with 16777216. change (2 ^ 32) with 4294967296.
    rewrite Z.mod_small by lia. lia.
  - destruct s as [|c1 [|c2 [|c3 [|c4 [|c5 [|c6 [|c7 [|c8 [|c9 s]]]]]]]]];
      try discriminate Hlen.
    cbn [all_hex] in Hhex. rewrite !andb_true_iff in Hhex.
    destruct Hhex as (H1 & H2 & H3 & H4 & H5 & H6 & H7 & H8 & _).
    apply hex_nibble_value_digit in H1, H2, H3, H4, H5, H6, H7, H8.
    unfold hex_value. cbn [parse_hex_pairs hex_value_from].
    destruct (hex_byte _ _ H1 H2) as [-> ->].
    destruct (hex_byte _ _ H3 H4) as [-> ->].
    destruct (hex_byte _ _ H5 H6) as [-> ->].
    destruct (hex_byte _ _ H7 H8) as [-> ->].
    cbn [array_set Nat.sub fst snd]. split; [|reflexivity].
    rewrite memcpy_long_low. cbn [nth].
    rewrite !Z.shiftl_mul_pow2 by lia.
    unfold to_uint, wrap_unsigned.
    change (2 ^ 8) with 256. change (2 ^ 16) with 65536.
    change (2 ^ 24) with 16777216. change (2 ^ 32) with 4294967296.
    rewrite Z.mod_small by lia. lia.
Qed.

(** X4.  The marker is optional for every name: when the colour database
    knows neither form, a name that does not itself begin with the marker
    gives the same colour (the same four channels, as
    [set_foreground_color] reads them) and the same log with the marker put
    in front, whatever the unwritten bytes of [out] hold in either call. *)
Theorem get_x11_color_marker_optional (uninit uninit' : Z) (name : string)
    (st : state) :
  OsLookupColor name = None ->
  OsLookupColor (String "#" name) = None ->
  skip_marker name = name ->
  colour_bytes (fst (get_x11_color OsLookupColor uninit (String "#" name) st))
  = colour_bytes (fst (get_x11_color OsLookupColor uninit' name st)) /\
  to_uint (fst (get_x11_color OsLookupColor uninit (String "#" name) st))
  = to_uint (fst (get_x11_color OsLookupColor uninit' name st)) /\
  snd (get_x11_color OsLookupColor uninit (String "#" name) st)
  = snd (get_x11_color OsLookupColor uninit' name st).
Proof.
  intros H1 H2 Hskip.
  destruct (get_x11_color_marker OsLookupColor uninit uninit' name st H1 H2 Hskip)
    as [Hlow Hlog].
  split; [apply colour_bytes_low; exact Hlow|].
  split; [exact Hlow | exact Hlog].
Qed.

End HexColours.

Lemma get_x11_color_hex_value_witness :
  let lookup := fun _ : string => @None (Z * Z * Z) in
  let result := get_x11_color lookup 0xabababababababab "#1a2B3c" initial_state in
  lookup "#1a2B3c"%string = None /\
  all_hex (skip_marker "#1a2B3c") = true /\
  String.length (skip_marker "#1a2B3c") = 6%nat /\
  to_uint (fst result) = hex_value (skip_marker "#1a2B3c") * 256 + 255 /\
  snd result = initial_state.
Proof.
  intros lookup result. split; [reflexivity|]. split; [reflexivity|].
  split; [reflexivity|].
  apply (get_x11_color_hex_value lookup 0xabababababababab "#1a2B3c" initial_state);
    reflexivity.
Defined.

Lemma get_x11_color_marker_optional_witness :
  let lookup := fun _ : string => @None (Z * Z * Z) in
  let marked := get_x11_color lookup 0xabababababababab "#c0ffee" initial_state in
  let plain := get_x11_color lookup 0 "c0ffee" initial_state in
  lookup "c0ffee"%string = None /\
  lookup "#c0ffee"%string = None /\
  skip_marker "c0ffee" = "c0ffee"%string /\
  colour_bytes (fst marked) = colour_bytes (fst plain) /\
  to_uint (fst marked) = to_uint (fst plain) /\
  snd marked = snd plain.
Proof.
  intros lookup marked plain.
  split; [reflexivity|]. split; [reflexivity|]. split; [reflexivity|].
  apply (get_x11_color_marker_optional lookup 0xabababababababab 0 "c0ffee"
           initial_state); reflexivity.
Defined.

Lemma land_low_shifted (lo hi n : Z) :
  0 <= n -> 0 <= lo < 2 ^ n -> Z.land lo (Z.shiftl hi n) = 0.
Proof.
  intros Hn Hlo. apply Z.bits_inj'. intros i Hi.
  rewrite Z.land_spec, Z.bits_0.
  destruct (Z.ltb_spec i n) as [Hlt | Hge].
  - rewrite Z.shiftl_spec_low by lia. apply andb_false_r.
  - rewrite <- (Z.mod_small lo (2 ^ n)) by lia.
    rewrite Z.mod_pow2_bits_high by lia. reflexivity.
Qed.

Lemma lor_low_shifted (lo hi n : Z) :
  0 <= n -> 0 <= lo < 2 ^ n -> Z.lor lo (Z.shiftl hi n) = lo + hi * 2 ^ n.
Proof.
  intros Hn Hlo. rewrite <- Z.shiftl_mul_pow2 by lia.
  rewrite <- Z.lxor_lor by (apply land_low_shifted; lia).
  symmetry. apply Z.add_nocarry_lxor. apply land_low_shifted; lia.
Qed.

Lemma lor_rearrange (a b c d : Z) :
  Z.lor (Z.lor (Z.lor a d) c) b = Z.lor a (Z.lor b (Z.lor c d)).
Proof.
  apply Z.bits_inj'. intros i _. rewrite !Z.lor_spec.
  destruct (Z.testbit a i), (Z.testbit b i), (Z.testbit c i), (Z.testbit d i);
    reflexivity.
Qed.

(** The value the named-colour branch packs, as a sum. *)
Lemma pack_named_colour (r g b : Z) :
  0 <= r <= 255 -> 0 <= g <= 255 -> 0 <= b <= 255 ->
  Z.lor (Z.lor (Z.lor 0x000000ff (Z.shiftl r 24)) (Z.shiftl g 16)) (Z.shiftl b 8)
  = 255 + b * 2 ^ 8 + g * 2 ^ 16 + r * 2 ^ 24.
Proof.
  intros Hr Hg Hb.
  assert (E : Z.lor (Z.lor (Z.lor 0x000000ff (Z.shiftl r 24)) (Z.shiftl g 16)) (Z.shiftl b 8)
              = Z.lor 255 (Z.shiftl (Z.lor b (Z.shiftl (Z.lor g (Z.shiftl r 8)) 8)) 8)).
  { rewrite !Z.shiftl_lor, !Z.shiftl_shiftl by lia.
    change (8 + 8) with 16. change (16 + 8) with 24.
    apply lor_rearrange. }
  rewrite E.
  rewrite (lor_low_shifted g r 8) by lia.
  rewrite (lor_low_shifted b _ 8) by lia.
  rewrite (lor_low_shifted 255 _ 8) by lia.
  change (2 ^ 8) with 256. change (2 ^ 16) with 65536. change (2 ^ 24) with 16777216.
  lia.
Qed.

Section ColourRoundTrip.

Variable OsLookupColor : string -> option (Z * Z * Z).

(** X5.  A colour found in the colour database is rendered with the low
    bytes of the components the database gives and full opacity: what
    [set_foreground_color] extracts from the value [get_x11_color] returns
    is (r & 0xff, g & 0xff, b & 0xff, 0xff); the lookup logs nothing. *)
Theorem named_colour_components (uninit : Z) (name : string) (st : state)
    (r g b : Z) :
  OsLookupColor name = Some (r, g, b) ->
  colour_bytes (fst (get_x11_color OsLookupColor uninit name st))
  = (Z.land r 0xff, Z.land g 0xff, Z.land b 0xff, 0xff) /\
  snd (get_x11_color OsLookupColor uninit name st) = st.
Proof.
  intros Hlookup. unfold get_x11_color. rewrite Hlookup. cbn [fst snd].
  split; [|reflexivity].
  rewrite <- colour_bytes_mod. rewrite to_long_mod32, to_int_mod.
  rewrite colour_bytes_mod.
  pose proof (byte_field_range r) as Hr.
  pose proof (byte_field_range g) as Hg.
  pose proof (byte_field_range b) as Hb.
  rewrite pack_named_colour by assumption.
  apply colour_bytes_packed; lia.
Qed.

End ColourRoundTrip.

Lemma named_colour_components_witness :
  let lookup := fun s : string =>
    if String.eqb s "red" then Some (65535, 0, 0) else None in
  lookup "red"%string = Some (65535, 0, 0) /\
  colour_bytes (fst (get_x11_color lookup 0 "red" initial_state))
  = (Z.land 65535 0xff, Z.land 0 0xff, Z.land 0 0xff, 0xff) /\
  snd (get_x11_color lookup 0 "red" initial_state) = initial_state.
Proof.
  intro lookup. split; [reflexivity|].
  apply (named_colour_components lookup 0 "red" initial_state 65535 0 0).
  reflexivity.
Defined.

(* ------------------------------------------------------------------ *)
(** ** [set_foreground_color]: what reaches cairo *)

Lemma colour_component_table :
  forallb (fun v =>
    SFleb (F64.of_int 0) (colour_component v)
    && SFleb (colour_component v) (F64.of_int 1))
    (map Z.of_nat (seq 0 256)) = true.
Proof. vm_compute. reflexivity. Qed.

Lemma to_uchar_range (z : Z) : 0 <= to_uchar z <= 255.
Proof.
  unfold to_uchar, wrap_unsigned.
  pose proof (Z.mod_pos_bound z (2 ^ 8) ltac:(lia)). lia.
Qed.

Lemma colour_component_unit (v : Z) :
  0 <= v <= 255 ->
  SFleb (F64.of_int 0) (colour_component v) = true /\
  SFleb (colour_component v) (F64.of_int 1) = true.
Proof.
  intros Hv. pose proof colour_component_table as Htab.
  rewrite forallb_forall in Htab.
  assert (Hin : In v (map Z.of_nat (seq 0 256)))
    by (apply in_map_of_nat_seq; lia).
  specialize (Htab v Hin). apply andb_true_iff in Htab. exact Htab.
Qed.

(** X6.  Whatever the colour, [set_foreground_color] stores it in
    [current_color] unchanged and, when there is a drawing context, hands
    cairo four components that all lie between 0.0 and 1.0; without a
    drawing context nothing is handed over. *)
Theorem set_foreground_color_unit_range (c : Z) :
  fst (set_foreground_color c true) = c /\
  set_foreground_color c false = (c, None) /\
  exists r g b a,
    snd (set_foreground_color c true) = Some (r, g, b, a) /\
    Forall (fun x => SFleb (F64.of_int 0) x = true /\ SFleb x (F64.of_int 1) = true)
           [r; g; b; a].
Proof.
  unfold set_foreground_color, colour_bytes. cbn [fst snd].
  split; [reflexivity|]. split; [reflexivity|].
  do 4 eexists. split; [reflexivity|].
  repeat constructor; apply colour_component_unit; apply to_uchar_range.
Qed.

(* ------------------------------------------------------------------ *)
(** ** [load_fonts] and the metrics read back *)

Lemma vector_resize_length (v : list pango_font) (n : nat) :
  List.length (vector_resize v n) = n.
Proof.
  unfold vector_resize. rewrite length_app, length_firstn, repeat_length. lia.
Qed.

Lemma load_each_length (be : font_backend) (fonts : list string) :
  forall (i : nat) (pango_fonts : list pango_font),
    List.length (load_each be i fonts pango_fonts) = List.length pango_fonts.
Proof.
  induction fonts as [|name fonts IH]; intros i [|entry rest]; cbn; try reflexivity.
  rewrite IH. reflexivity.
Qed.

Lemma load_each_nth (be : font_backend) (fonts : list string) :
  forall (i k : nat) (pango_fonts : list pango_font) (name : string),
    List.length pango_fonts = List.length fonts ->
    nth_error fonts k = Some name ->
    exists entry,
      nth_error pango_fonts k = Some entry /\
      nth_error (load_each be i fonts pango_fonts) k
      = Some (load_font be (i + k) name entry).
Proof.
  induction fonts as [|name0 fonts IH]; intros i k [|entry rest] name Hlen Hk;
    try (destruct k; discriminate).
  destruct k as [|k]; cbn in *.
  - injection Hk as <-. exists entry. rewrite Nat.add_0_r. split; reflexivity.
  - destruct (IH (S i) k rest name ltac:(lia) Hk) as [e [He1 He2]].
    exists e. split; [exact He1|].
    rewrite He2. f_equal. f_equal. lia.
Qed.

Lemma load_fonts_length (be : font_backend) (fonts : list string)
    (old : list pango_font) :
  List.length (load_fonts be fonts old) = List.length fonts.
Proof.
  unfold load_fonts. rewrite load_each_length. apply vector_resize_length.
Qed.

Lemma quot_1024_small (z : Z) :
  0 <= z < 2 ^ 31 ->
  to_int (to_uint (Z.quot (to_int z) 1024)) = z / 1024 /\
  to_uint (Z.quot (to_int z) 1024) = z / 1024 /\
  0 <= z / 1024 < 2 ^ 21.
Proof.
  intros Hz. rewrite (to_int_small z) by lia.
  rewrite Z.quot_div_nonneg by lia.
  assert (Hq : 0 <= z / 1024 < 2 ^ 21).
  { split; [apply Z.div_pos; lia|].
    apply Z.div_lt_upper_bound; [lia|]. change (2 ^ 21) with 2097152.
    change (2 ^ 31) with 2147483648 in Hz. lia. }
  change (2 ^ 21) with 2097152 in *.
  rewrite to_uint_small by (change (2 ^ 32) with 4294967296; lia).
  rewrite to_int_small by (change (2 ^ 31) with 2147483648; lia).
  repeat split; lia.
Qed.

(** X7.  After [load_fonts] the table has one entry per configured font.
    For a configured slot whose font reports metrics inside [int]'s
    non-negative range, [font_ascent] and [font_descent] return those
    metrics divided by 1024 and [font_height] returns their sum; an index
    at or beyond the number of configured fonts fails the assertion in all
    three. *)
Theorem load_fonts_metrics (be : font_backend) (fonts : list string)
    (old : list pango_font) (f : nat) (name : string) :
  nth_error fonts f = Some name ->
  0 <= metrics_ascent be (describe be f name) < 2 ^ 31 ->
  0 <= metrics_descent be (describe be f name) < 2 ^ 31 ->
  let table := load_fonts be fonts old in
  let up := metrics_ascent be (describe be f name) / 1024 in
  let down := metrics_descent be (describe be f name) / 1024 in
  List.length table = List.length fonts /\
  font_ascent table (Z.of_nat f) = Returned up /\
  font_descent table (Z.of_nat f) = Returned down /\
  font_height table (Z.of_nat f) = Returned (up + down) /\
  forall g : Z,
    Z.of_nat (List.length fonts) <= g ->
    font_ascent table g = AssertionFailed /\
    font_descent table g = AssertionFailed /\
    font_height table g = AssertionFailed.
Proof.
  intros Hf Ha Hd table up down.
  pose proof (load_fonts_length be fonts old) as Hlen. fold table in Hlen.
  assert (Hlt : (f < List.length fonts)%nat)
    by (apply nth_error_Some; rewrite Hf; discriminate).
  destruct (load_each_nth be fonts 0 f (vector_resize old (List.length fonts)) name
              (vector_resize_length _ _) Hf) as [entry [_ Hnth]].
  fold (load_fonts be fonts old) in Hnth. fold table in Hnth. cbn [Nat.add] in Hnth.
  destruct (quot_1024_small _ Ha) as (Ea1 & Ea2 & Ra).
  destruct (quot_1024_small _ Hd) as (Ed1 & Ed2 & Rd).
  assert (Hat : font_at table (Z.of_nat f) = Returned (load_font be f name entry)).
  { unfold font_at. rewrite Hlen.
    destruct (Z.ltb_spec (Z.of_nat f) (Z.of_nat (List.length fonts))); [|lia].
    rewrite Nat2Z.id, Hnth. reflexivity. }
  assert (Hne : (Z.of_nat (List.length table) =? 0) = false)
    by (apply Z.eqb_neq; lia).
  split; [exact Hlen|].
  unfold font_ascent, font_descent, font_height. rewrite Hne, Hat.
  cbn [ascent descent load_font].
  split; [|split; [|split]].
  - fold up. f_equal. exact Ea1.
  - fold down. f_equal. exact Ed1.
  - rewrite Ea2, Ed2. fold up down. fold up in Ra. fold down in Rd. f_equal.
    change (2 ^ 21) with 2097152 in *.
    rewrite to_uint_small by (change (2 ^ 32) with 4294967296; lia).
    apply to_int_small. change (2 ^ 31) with 2147483648. lia.
  - intros g Hg.
    rewrite (font_at_out_of_range table g) by (rewrite Hlen; exact Hg).
    repeat split.
Qed.

Lemma load_fonts_metrics_witness :
  let be := {| describe := fun i _ => Z.of_nat i + 100;
               metrics_ascent := fun _ => 12288;
               metrics_descent := fun _ => 4096 |} in
  let fonts := ["DejaVu Sans Mono:size=10"%string] in
  nth_error fonts 0 = Some "DejaVu Sans Mono:size=10"%string /\
  0 <= metrics_ascent be (describe be 0 "DejaVu Sans Mono:size=10") < 2 ^ 31 /\
  0 <= metrics_descent be (describe be 0 "DejaVu Sans Mono:size=10") < 2 ^ 31 /\
  font_height (load_fonts be fonts []) 0 = Returned 16.
Proof.
  intros be fonts. split; [reflexivity|]. split; [cbn; lia|]. split; [cbn; lia|].
  apply (load_fonts_metrics be fonts [] 0 "DejaVu Sans Mono:size=10");
    [reflexivity | cbn; lia | cbn; lia].
Defined.

Lemma released_load_each (be : font_backend) (fonts : list string) :
  forall (i : nat) (pango_fonts : list pango_font),
    List.length pango_fonts = List.length fonts ->
    released_descriptions (load_each be i fonts pango_fonts)
    = map (fun p => describe be (fst p) (snd p))
          (combine (seq i (List.length fonts)) fonts).
Proof.
  induction fonts as [|name fonts IH]; intros i [|entry rest] Hlen;
    try discriminate Hlen; cbn.
  - reflexivity.
  - f_equal. apply IH. cbn in Hlen. lia.
Qed.

(** X8.  [free_fonts] after [load_fonts] releases exactly the descriptions
    [load_fonts] created, one per configured font and in slot order,
    whatever the table held before, and leaves the table empty; a second
    [free_fonts] releases nothing. *)
Theorem load_then_free_fonts (be : font_backend) (fonts : list string)
    (old : list pango_font) :
  free_fonts (load_fonts be fonts old)
  = (map (fun p => describe be (fst p) (snd p))
         (combine (seq 0 (List.length fonts)) fonts), []) /\
  List.length (fst (free_fonts (load_fonts be fonts old))) = List.length fonts /\
  free_fonts (snd (free_fonts (load_fonts be fonts old))) = ([], []).
Proof.
  unfold free_fonts, load_fonts. cbn [fst snd].
  rewrite released_load_each by apply vector_resize_length.
  split; [reflexivity|]. split; [|reflexivity].
  rewrite length_map, length_combine, length_seq. lia.
Qed.

Lemma font_alpha_load_each (be : font_backend) (fonts : list string) :
  forall (i : nat) (pango_fonts : list pango_font),
    map font_alpha (load_each be i fonts pango_fonts) = map font_alpha pango_fonts.
Proof.
  induction fonts as [|name fonts IH]; intros i [|entry rest]; cbn; try reflexivity.
  rewrite IH. reflexivity.
Qed.

(** X9.  [load_fonts] never writes [font_alpha]: the slots that existed
    before keep the alpha they had (the one the [xftalpha] setting stored
    in slot 0, for instance), and slots it adds have 0xffff. *)
Theorem load_fonts_keeps_alpha (be : font_backend) (fonts : list string)
    (old : list pango_font) :
  map font_alpha (load_fonts be fonts old)
  = firstn (List.length fonts) (map font_alpha old)
    ++ repeat 0xffff (List.length fonts - List.length old).
Proof.
  unfold load_fonts. rewrite font_alpha_load_each.
  unfold vector_resize. rewrite map_app, <- firstn_map, map_repeat.
  reflexivity.
Qed.

(* ------------------------------------------------------------------ *)
(** ** The pool as a bump allocator *)

Lemma to_size_t_range (z : Z) : 0 <= to_size_t z < 2 ^ 64.
Proof. unfold to_size_t, wrap_unsigned. apply Z.mod_pos_bound. lia. Qed.

(** X10.  [shm_pool_allocate] keeps [used <= size] for every request, a
    request whose sum with [used] wraps around included, and never changes
    the pool's size or mapping. *)
Theorem shm_pool_allocate_keeps_bound (pool : shm_pool) (size offset : Z) :
  pool_wf pool -> pool_used pool <= pool_size pool ->
  let after := alloc_pool (shm_pool_allocate pool size offset) in
  pool_wf after /\
  pool_used after <= pool_size after /\
  pool_size after = pool_size pool /\
  pool_data after = pool_data pool.
Proof.
  intros [Hs Hu] Hle. unfold shm_pool_allocate.
  destruct (Z.ltb_spec (pool_size pool) (to_size_t (pool_used pool + size)))
    as [Hover | Hfit]; cbn [alloc_pool pool_size pool_used pool_data].
  - repeat split; lia.
  - pose proof (to_size_t_range (pool_used pool + size)).
    unfold pool_wf. cbn [pool_size pool_used]. repeat split; lia.
Qed.

Lemma shm_pool_allocate_keeps_bound_witness :
  let pool := {| pool_size := 16; pool_used := 8; pool_data := 4096 |} in
  pool_wf pool /\ pool_used pool <= pool_size pool /\
  let after := alloc_pool (shm_pool_allocate pool (2 ^ 64 - 4) 0) in
  pool_wf after /\
  pool_used after <= pool_size after /\
  pool_size after = pool_size pool /\
  pool_data after = pool_data pool.
Proof.
  intro pool.
  assert (Hwf : pool_wf pool) by (unfold pool_wf, pool; cbn; lia).
  assert (Hle : pool_used pool <= pool_size pool) by (unfold pool; cbn; lia).
  split; [exact Hwf|]. split; [exact Hle|].
  exact (shm_pool_allocate_keeps_bound pool (2 ^ 64 - 4) 0 Hwf Hle).
Defined.

(** X11.  Two requests that together fit a pool of less than 2 GiB are
    served back to back: the second region begins where the first ends,
    both lie inside the mapping, and [used] has advanced by the two sizes. *)
Theorem shm_pool_allocate_adjacent (pool : shm_pool) (size1 size2 offset : Z) :
  pool_wf pool -> 0 <= size1 -> 0 <= size2 ->
  pool_used pool + size1 + size2 <= pool_size pool ->
  pool_size pool < 2 ^ 31 ->
  let first := shm_pool_allocate pool size1 offset in
  let second := shm_pool_allocate (alloc_pool first) size2 (alloc_offset first) in
  alloc_ptr first = Some (pool_data pool + pool_used pool) /\
  alloc_ptr second = Some (pool_data pool + pool_used pool + size1) /\
  alloc_offset second = alloc_offset first + size1 /\
  pool_used (alloc_pool second) = pool_used pool + size1 + size2 /\
  pool_data pool + pool_used pool + size1 + size2
  <= pool_data pool + pool_size pool.
Proof.
  intros Hwf H1 H2 Hfit Hsmall first second.
  destruct Hwf as [Hs Hu].
  assert (E1 : first = {| alloc_ptr := Some (pool_data pool + pool_used pool);
                          alloc_offset := pool_used pool;
                          alloc_pool := {| pool_size := pool_size pool;
                                           pool_used := pool_used pool + size1;
                                           pool_data := pool_data pool |} |}).
  { apply shm_pool_allocate_bump; [split; lia | lia | lia | lia]. }
  assert (E2 : second = {| alloc_ptr := Some (pool_data pool + (pool_used pool + size1));
                           alloc_offset := pool_used pool + size1;
                           alloc_pool := {| pool_size := pool_size pool;
                                            pool_used := pool_used pool + size1 + size2;
                                            pool_data := pool_data pool |} |}).
  { unfold second. rewrite E1. cbn [alloc_pool alloc_offset].
    apply (shm_pool_allocate_bump
             {| pool_size := pool_size pool; pool_used := pool_used pool + size1;
                pool_data := pool_data pool |} size2 (pool_used pool));
      unfold pool_wf; cbn [pool_size pool_used]; lia. }
  rewrite E2, E1. cbn [alloc_ptr alloc_offset alloc_pool pool_used].
  repeat split; try lia. f_equal. lia.
Qed.

Lemma shm_pool_allocate_adjacent_witness :
  let pool := shm_pool_create 4096 65536 in
  pool_wf pool /\ 0 <= 1024 /\ 0 <= 2048 /\
  pool_used pool + 1024 + 2048 <= pool_size pool /\
  pool_size pool < 2 ^ 31 /\
  let first := shm_pool_allocate pool 1024 0 in
  let second := shm_pool_allocate (alloc_pool first) 2048 (alloc_offset first) in
  alloc_ptr first = Some (pool_data pool + pool_used pool) /\
  alloc_ptr second = Some (pool_data pool + pool_used pool + 1024) /\
  alloc_offset second = alloc_offset first + 1024 /\
  pool_used (alloc_pool second) = pool_used pool + 1024 + 2048 /\
  pool_data pool + pool_used pool + 1024 + 2048
  <= pool_data pool + pool_size pool.
Proof.
  intro pool.
  assert (Hwf : pool_wf pool) by (unfold pool_wf, pool; cbn; lia).
  split; [exact Hwf|]. split; [lia|]. split; [lia|].
  split; [unfold pool; cbn; lia|]. split; [unfold pool; cbn; lia|].
  apply (shm_pool_allocate_adjacent pool 1024 2048 0 Hwf);
    unfold pool; cbn; lia.
Defined.

(** X12.  A pool fresh from [shm_pool_create] serves one request for its
    whole size, at offset 0 and at the start of the mapping; after that
    every further non-empty request (one that does not wrap around) is
    refused and leaves the pool as it is. *)
Theorem fresh_pool_exact_fit (size data offset : Z) :
  0 <= size < 2 ^ 64 ->
  let whole := shm_pool_allocate (shm_pool_create size data) size offset in
  alloc_ptr whole = Some data /\
  alloc_offset whole = 0 /\
  pool_used (alloc_pool whole) = size /\
  forall more offset' : Z,
    0 < more -> size + more < 2 ^ 64 ->
    shm_pool_allocate (alloc_pool whole) more offset'
    = {| alloc_ptr := None; alloc_offset := offset';
         alloc_pool := alloc_pool whole |}.
Proof.
  intros Hsize whole.
  assert (E : whole = {| alloc_ptr := Some (data + 0); alloc_offset := 0;
                         alloc_pool := {| pool_size := size; pool_used := size;
                                          pool_data := data |} |}).
  { unfold whole, shm_pool_allocate, shm_pool_create.
    cbn [pool_size pool_used pool_data].
    rewrite Z.add_0_l, to_size_t_small by lia.
    rewrite Z.ltb_irrefl. reflexivity. }
  rewrite E. cbn [alloc_ptr alloc_offset alloc_pool pool_used].
  split; [f_equal; lia|]. split; [reflexivity|]. split; [reflexivity|].
  intros more offset' Hmore Hno.
  apply shm_pool_allocate_exhausted; unfold pool_wf; cbn [pool_size pool_used]; lia.
Qed.

Lemma fresh_pool_exact_fit_witness :
  0 <= 4096 < 2 ^ 64 /\
  let whole := shm_pool_allocate (shm_pool_create 4096 65536) 4096 7 in
  alloc_ptr whole = Some 65536 /\
  alloc_offset whole = 0 /\
  pool_used (alloc_pool whole) = 4096 /\
  forall more offset' : Z,
    0 < more -> 4096 + more < 2 ^ 64 ->
    shm_pool_allocate (alloc_pool whole) more offset'
    = {| alloc_ptr := None; alloc_offset := offset';
         alloc_pool := alloc_pool whole |}.
Proof.
  split; [lia|].
  apply (fresh_pool_exact_fit 4096 65536 7). lia.
Defined.

(* ------------------------------------------------------------------ *)
(** ** The window: buffer allocation, resizing and coordinates *)

Lemma to_size_t_idem (z : Z) : to_size_t (to_size_t z) = to_size_t z.
Proof. apply to_size_t_small. apply to_size_t_range. Qed.

Lemma to_int_of_size_t (z : Z) : to_int (to_size_t z) = to_int z.
Proof.
  unfold to_int, to_size_t, wrap_signed, wrap_unsigned. change (32 - 1) with 31.
  f_equal.
  rewrite <- (Z.mod_mod_divide (z mod 2 ^ 64 + 2 ^ 31) (2 ^ 64) (2 ^ 32))
    by (exists (2 ^ 32); reflexivity).
  rewrite Zplus_mod_idemp_l.
  apply Z.mod_mod_divide. exists (2 ^ 32). reflexivity.
Qed.

Lemma int_through_size_t (z : Z) :
  - 2 ^ 31 <= z < 2 ^ 31 -> to_int (to_size_t z) = z.
Proof. intros Hz. rewrite to_int_of_size_t. apply to_int_small. exact Hz. Qed.

Lemma to_int_range (z : Z) : - 2 ^ 31 <= to_int z < 2 ^ 31.
Proof.
  unfold to_int, wrap_signed. change (32 - 1) with 31.
  pose proof (Z.mod_pos_bound (z + 2 ^ 31) (2 ^ 32) ltac:(lia)) as H.
  change (2 ^ 32) with 4294967296 in H. change (2 ^ 32) with 4294967296.
  change (2 ^ 31) with 2147483648 in *. lia.
Qed.

Section WindowProperties.

Variable stride_for_width : Z -> Z.
Variable sys : system.

Lemma window_allocate_buffer_outcome (w : window) (shm : Z) :
  win_shm w = Some shm ->
  let rect := win_rectangle w in
  match shm_pool_create_in sys
          (to_size_t (data_length_for_shm_surface stride_for_width rect)) with
  | (Some (wl_pool, pool), log) =>
      window_allocate_buffer stride_for_width sys w
      = Returned
          ({| win_rectangle := rect; win_shm := Some shm;
              win_cairo_surface :=
                Some {| surface_map := pool_data pool;
                        surface_width := to_int (rect_width rect);
                        surface_height := to_int (rect_height rect);
                        surface_stride := stride_for_width (to_int (rect_width rect));
                        surface_offset := 0;
                        surface_pool :=
                          Some (wl_pool,
                                {| pool_size := pool_size pool;
                                   pool_used := pool_size pool;
                                   pool_data := pool_data pool |}) |};
              win_cr := true; win_layout := true; win_pango_context := true |},
           log)
  | (None, log) =>
      window_allocate_buffer stride_for_width sys w
      = Returned (w, log ++ [SysPrint "could not allocate shm pool"])
  end.
Proof.
  intros Hshm rect. unfold window_allocate_buffer. rewrite Hshm. fold rect.
  destruct (shm_pool_create_in sys
              (to_size_t (data_length_for_shm_surface stride_for_width rect)))
    as [[[wl_pool pool]|] log] eqn:Hcreate; [|reflexivity].
  destruct (shm_pool_create_in_fresh _ _ _ _ _ Hcreate) as [Hsize Hused].
  unfold create_shm_surface_from_pool, shm_pool_allocate.
  fold (data_length_for_shm_surface stride_for_width rect).
  rewrite Hused, Hsize, Z.add_0_l, to_size_t_idem, Z.ltb_irrefl.
  cbn [alloc_ptr alloc_offset alloc_pool surface_map surface_width
       surface_height surface_stride surface_offset].
  change (to_int 0) with 0. rewrite Z.add_0_r. reflexivity.
Qed.

(** X13.  In [window_allocate_buffer] the allocation inside the pool that
    was just created cannot fail: whenever [shm_pool_create] succeeds the
    window gets its surface, at offset 0 and at the start of the mapping,
    with the whole pool used, and the pool is not destroyed; when it fails
    the window is left untouched and only the message is printed. *)
Theorem window_allocate_buffer_cases (w : window) (shm : Z) :
  win_shm w = Some shm ->
  let rect := win_rectangle w in
  match shm_pool_create_in sys
          (to_size_t (data_length_for_shm_surface stride_for_width rect)) with
  | (Some (wl_pool, pool), log) =>
      window_allocate_buffer stride_for_width sys w
      = Returned
          ({| win_rectangle := rect; win_shm := Some shm;
              win_cairo_surface :=
                Some {| surface_map := pool_data pool;
                        surface_width := to_int (rect_width rect);
                        surface_height := to_int (rect_height rect);
                        surface_stride := stride_for_width (to_int (rect_width rect));
                        surface_offset := 0;
                        surface_pool :=
                          Some (wl_pool,
                                {| pool_size := pool_size pool;
                                   pool_used := pool_size pool;
                                   pool_data := pool_data pool |}) |};
              win_cr := true; win_layout := true; win_pango_context := true |},
           log)
  | (None, log) =>
      window_allocate_buffer stride_for_width sys w
      = Returned (w, log ++ [SysPrint "could not allocate shm pool"])
  end.
Proof.
  intros Hshm. exact (window_allocate_buffer_outcome w shm Hshm).
Qed.

Lemma window_allocate_buffer_rectangle (w w' : window) (log : list sys_event) :
  window_allocate_buffer stride_for_width sys w = Returned (w', log) ->
  win_rectangle w' = win_rectangle w /\ win_shm w' = win_shm w.
Proof.
  unfold window_allocate_buffer.
  destruct (win_shm w) as [shm|] eqn:Hshm; [|discriminate].
  destruct (shm_pool_create_in sys _) as [[[wl_pool pool]|] l].
  - destruct (create_shm_surface_from_pool _ _ _) as [[s|] p];
      intros H; injection H as <- _; cbn; auto.
  - intros H. injection H as <- _. auto.
Qed.

Lemma window_allocate_buffer_returns (w : window) :
  win_shm w <> None ->
  exists w' log, window_allocate_buffer stride_for_width sys w = Returned (w', log).
Proof.
  intros Hshm. unfold window_allocate_buffer.
  destruct (win_shm w) as [shm|]; [|contradiction].
  destruct (shm_pool_create_in sys _) as [[[wl_pool pool]|] l].
  - destruct (create_shm_surface_from_pool _ _ _) as [[s|] p]; eauto.
  - eauto.
Qed.

Lemma window_resize_geometry (w : window) (width height : Z) :
  win_shm w <> None ->
  - 2 ^ 31 <= width < 2 ^ 31 -> - 2 ^ 31 <= height < 2 ^ 31 ->
  exists w' log,
    window_resize stride_for_width sys w width height = Returned (w', log) /\
    window_get_width_height w' = (width, height) /\
    rect_x (win_rectangle w') = rect_x (win_rectangle w) /\
    rect_y (win_rectangle w') = rect_y (win_rectangle w) /\
    win_shm w' = win_shm w.
Proof.
  intros Hshm Hw Hh. unfold window_resize, window_free_buffer.
  match goal with
  | |- context [window_allocate_buffer _ _ ?w2] =>
      destruct (window_allocate_buffer_returns w2 Hshm) as [w3 [log2 E]];
      pose proof (window_allocate_buffer_rectangle w2 w3 log2 E) as [Hrect Hs]
  end.
  rewrite E. eexists. eexists. split; [reflexivity|].
  unfold window_get_width_height. rewrite Hrect, Hs. cbn.
  rewrite !int_through_size_t by assumption. auto.
Qed.

(** X14.  [window_resize] followed by [window_get_width_height] gives back
    exactly the width and height asked for, for every pair of [int]s and
    whether or not a new buffer could be allocated; position and [shm] are
    kept.  The call returns whenever the window has its [shm]. *)
Theorem window_resize_then_get (w : window) (width height : Z) :
  win_shm w <> None ->
  - 2 ^ 31 <= width < 2 ^ 31 -> - 2 ^ 31 <= height < 2 ^ 31 ->
  exists w' log,
    window_resize stride_for_width sys w width height = Returned (w', log) /\
    window_get_width_height w' = (width, height) /\
    rect_x (win_rectangle w') = rect_x (win_rectangle w) /\
    rect_y (win_rectangle w') = rect_y (win_rectangle w) /\
    win_shm w' = win_shm w.
Proof.
  intros Hshm Hw Hh.
  destruct (window_resize_geometry w width height Hshm Hw Hh)
    as (w' & log & E & G & X & Y & S).
  exists w', log. repeat split; assumption.
Qed.

(** X15.  [window_create] yields a window at position (0, 0) whose width
    and height read back as the ones given, whatever the fields it does
    not initialise held and whether or not the buffer could be allocated. *)
Theorem window_create_geometry (uninit : window) (shm : Z) (width height : Z) :
  - 2 ^ 31 <= width < 2 ^ 31 -> - 2 ^ 31 <= height < 2 ^ 31 ->
  exists w log,
    window_create stride_for_width sys uninit (Some shm) width height
    = Returned (w, log) /\
    window_get_width_height w = (width, height) /\
    rect_x (win_rectangle w) = 0 /\ rect_y (win_rectangle w) = 0.
Proof.
  intros Hw Hh. unfold window_create.
  match goal with
  | |- context [window_allocate_buffer _ _ ?w2] =>
      destruct (window_allocate_buffer_returns w2 ltac:(cbn; discriminate))
        as [w3 [log2 E]];
      pose proof (window_allocate_buffer_rectangle w2 w3 log2 E) as [Hrect Hs]
  end.
  rewrite E. eexists. eexists. split; [reflexivity|].
  unfold window_get_width_height. rewrite Hrect. cbn.
  rewrite !int_through_size_t by assumption. auto.
Qed.

(** X16.  After the resize step of the main loop the window is as wide and
    as high as the text area plus twice the border (in [int] arithmetic),
    whether the step had to resize or not; it reports a change exactly
    when the size was different before. *)
Theorem resize_to_text_size (border text_start_x text_start_y
    text_width text_height : Z) (w : window) :
  win_shm w <> None ->
  let wanted := (to_int (text_width + to_int (2 * border)),
                 to_int (text_height + to_int (2 * border))) in
  exists w' changed log,
    resize_to_text stride_for_width sys border text_start_x text_start_y
      text_width text_height w = Returned (w', changed, log) /\
    window_get_width_height w' = wanted /\
    (changed = 0 <-> window_get_width_height w = wanted) /\
    (changed = 0 -> w' = w /\ log = []).
Proof.
  intros Hshm wanted. unfold resize_to_text.
  destruct (window_get_width_height w) as [width height] eqn:Hget.
  cbn [Z.eqb andb].
  set (ww := to_int (text_width + to_int (2 * border))) in *.
  set (wh := to_int (text_height + to_int (2 * border))) in *.
  assert (Rw : - 2 ^ 31 <= ww < 2 ^ 31) by apply to_int_range.
  assert (Rh : - 2 ^ 31 <= wh < 2 ^ 31) by apply to_int_range.
  destruct (Z.eqb_spec ww width) as [Ew | Nw];
    destruct (Z.eqb_spec wh height) as [Eh | Nh]; cbn [negb orb].
  - exists w, 0, []. split; [reflexivity|]. subst width height.
    unfold wanted. repeat split; auto.
  - destruct (window_resize_geometry w ww wh Hshm Rw Rh) as (w' & log & E & G & _).
    rewrite E. eexists. eexists. eexists. split; [reflexivity|].
    split; [exact G|]. split; [|discriminate].
    split; [discriminate|]. unfold wanted. intros H. injection H as _ H. congruence.
  - destruct (window_resize_geometry w ww wh Hshm Rw Rh) as (w' & log & E & G & _).
    rewrite E. eexists. eexists. eexists. split; [reflexivity|].
    split; [exact G|]. split; [|discriminate].
    split; [discriminate|]. unfold wanted. intros H. injection H as H _. congruence.
  - destruct (window_resize_geometry w ww wh Hshm Rw Rh) as (w' & log & E & G & _).
    rewrite E. eexists. eexists. eexists. split; [reflexivity|].
    split; [exact G|]. split; [|discriminate].
    split; [discriminate|]. unfold wanted. intros H. injection H as H _. congruence.
Qed.

End WindowProperties.

Lemma window_allocate_buffer_cases_witness :
  win_shm bare_window = Some 1 /\
  window_allocate_buffer four_bytes_per_pixel obliging_system bare_window
  = Returned
      ({| win_rectangle := win_rectangle bare_window; win_shm := Some 1;
          win_cairo_surface :=
            Some {| surface_map := 65536; surface_width := 1;
                    surface_height := 1; surface_stride := 4;
                    surface_offset := 0;
                    surface_pool :=
                      Some (1, {| pool_size := 4; pool_used := 4;
                                  pool_data := 65536 |}) |};
          win_cr := true; win_layout := true; win_pango_context := true |},
       [SysUnlink "/run/user/1000/weston-shared-XXXXXX"; SysClose 5]).
Proof.
  split; [reflexivity|].
  exact (window_allocate_buffer_cases four_bytes_per_pixel obliging_system
           bare_window 1 eq_refl).
Defined.

Lemma window_resize_then_get_witness :
  win_shm bare_window <> None /\
  - 2 ^ 31 <= 640 < 2 ^ 31 /\ - 2 ^ 31 <= 480 < 2 ^ 31 /\
  exists w' log,
    window_resize four_bytes_per_pixel obliging_system bare_window 640 480
    = Returned (w', log) /\
    window_get_width_height w' = (640, 480) /\
    rect_x (win_rectangle w') = rect_x (win_rectangle bare_window) /\
    rect_y (win_rectangle w') = rect_y (win_rectangle bare_window) /\
    win_shm w' = win_shm bare_window.
Proof.
  split; [discriminate|]. split; [lia|]. split; [lia|].
  apply (window_resize_then_get four_bytes_per_pixel obliging_system
           bare_window 640 480); [discriminate | lia | lia].
Defined.

Lemma window_create_geometry_witness :
  - 2 ^ 31 <= 1 < 2 ^ 31 /\ - 2 ^ 31 <= 1 < 2 ^ 31 /\
  exists w log,
    window_create four_bytes_per_pixel obliging_system bare_window (Some 1) 1 1
    = Returned (w, log) /\
    window_get_width_height w = (1, 1) /\
    rect_x (win_rectangle w) = 0 /\ rect_y (win_rectangle w) = 0.
Proof.
  split; [lia|]. split; [lia|].
  apply (window_create_geometry four_bytes_per_pixel obliging_system
           bare_window 1 1 1); lia.
Defined.

Lemma resize_to_text_size_witness :
  win_shm bare_window <> None /\
  let wanted := (to_int (200 + to_int (2 * 3)), to_int (100 + to_int (2 * 3))) in
  exists w' changed log,
    resize_to_text four_bytes_per_pixel obliging_system 3 0 0 200 100 bare_window
    = Returned (w', changed, log) /\
    window_get_width_height w' = wanted /\
    (changed = 0 <-> window_get_width_height bare_window = wanted) /\
    (changed = 0 -> w' = bare_window /\ log = []).
Proof.
  split; [discriminate|].
  apply (resize_to_text_size four_bytes_per_pixel obliging_system 3 0 0 200 100
           bare_window). discriminate.
Defined.

(* ------------------------------------------------------------------ *)
(** ** Configure events and coordinates *)

Lemma to_int_repr (z : Z) : exists k, to_int z = z + k * 2 ^ 32.
Proof.
  exists (- ((z + 2 ^ 31) / 2 ^ 32)).
  unfold to_int, wrap_signed. change (32 - 1) with 31.
  rewrite Z.mod_eq by lia. lia.
Qed.

Lemma to_size_t_repr (z : Z) : exists k, to_size_t z = z + k * 2 ^ 32.
Proof.
  exists (- (z / 2 ^ 64) * 2 ^ 32).
  unfold to_size_t, wrap_unsigned. rewrite Z.mod_eq by lia.
  change (2 ^ 64) with (2 ^ 32 * 2 ^ 32). lia.
Qed.

Lemma to_int_add_multiple (z k : Z) : to_int (z + k * 2 ^ 32) = to_int z.
Proof.
  unfold to_int, wrap_signed. change (32 - 1) with 31. f_equal.
  replace (z + k * 2 ^ 32 + 2 ^ 31) with (z + 2 ^ 31 + k * 2 ^ 32) by lia.
  apply Z.mod_add. lia.
Qed.

(** X17.  A configure event for [int] sizes makes the window report the
    configured size and sets the text area to that size less twice the
    border, without touching the buffer; if the text area is not changed in
    between, the resize step of the main loop then finds nothing to do, so
    the buffer keeps the size it had before the event. *)
Theorem xdg_toplevel_configure_then_resize (stride_for_width : Z -> Z)
    (sys : system) (border text_start_x text_start_y : Z) (w : window)
    (width height : Z) :
  - 2 ^ 31 <= width < 2 ^ 31 -> - 2 ^ 31 <= height < 2 ^ 31 ->
  let '(text_width, text_height, w') :=
    xdg_toplevel_configure border w width height in
  window_get_width_height w' = (width, height) /\
  win_cairo_surface w' = win_cairo_surface w /\
  resize_to_text stride_for_width sys border text_start_x text_start_y
    text_width text_height w' = Returned (w', 0, []).
Proof.
  intros Hw Hh. unfold xdg_toplevel_configure.
  unfold resize_to_text, window_get_width_height.
  cbn [win_rectangle rect_width rect_height win_cairo_surface].
  rewrite !int_through_size_t by assumption.
  split; [reflexivity|]. split; [reflexivity|].
  assert (Ew : to_int (to_int (width - to_int (2 * border)) + to_int (2 * border)) = width).
  { destruct (to_int_repr (width - to_int (2 * border))) as [k ->].
    replace (width - to_int (2 * border) + k * 2 ^ 32 + to_int (2 * border))
      with (width + k * 2 ^ 32) by lia.
    rewrite to_int_add_multiple. apply to_int_small. exact Hw. }
  assert (Eh : to_int (to_int (height - to_int (2 * border)) + to_int (2 * border)) = height).
  { destruct (to_int_repr (height - to_int (2 * border))) as [k ->].
    replace (height - to_int (2 * border) + k * 2 ^ 32 + to_int (2 * border))
      with (height + k * 2 ^ 32) by lia.
    rewrite to_int_add_multiple. apply to_int_small. exact Hh. }
  rewrite Ew, Eh, !Z.eqb_refl. reflexivity.
Qed.

Lemma xdg_toplevel_configure_then_resize_witness :
  - 2 ^ 31 <= 800 < 2 ^ 31 /\ - 2 ^ 31 <= 600 < 2 ^ 31 /\
  let '(text_width, text_height, w') :=
    xdg_toplevel_configure 3 bare_window 800 600 in
  window_get_width_height w' = (800, 600) /\
  win_cairo_surface w' = win_cairo_surface bare_window /\
  resize_to_text four_bytes_per_pixel obliging_system 3 0 0
    text_width text_height w' = Returned (w', 0, []).
Proof.
  split; [lia|]. split; [lia|].
  apply (xdg_toplevel_configure_then_resize four_bytes_per_pixel obliging_system
           3 0 0 bare_window 800 600); lia.
Defined.

(** X18.  [adjust_coords] is a translation: the difference between two
    adjusted points is the difference between the points themselves (in
    [int] arithmetic), whatever the window size and border; and when
    nothing overflows the adjusted point is [(x + width / 2 + border,
    y + height + border)]. *)
Theorem adjust_coords_translation (border : Z) (w : window) (x1 y1 x2 y2 : Z) :
  let p1 := adjust_coords border w x1 y1 in
  let p2 := adjust_coords border w x2 y2 in
  to_int (fst p2 - fst p1) = to_int (x2 - x1) /\
  to_int (snd p2 - snd p1) = to_int (y2 - y1) /\
  (- 2 ^ 31 <= x1 + rect_width (win_rectangle w) / 2 + border < 2 ^ 31 ->
   - 2 ^ 31 <= y1 + rect_height (win_rectangle w) + border < 2 ^ 31 ->
   p1 = (x1 + rect_width (win_rectangle w) / 2 + border,
         y1 + rect_height (win_rectangle w) + border)).
Proof.
  intros p1 p2. unfold p1, p2, adjust_coords. cbn [fst snd].
  set (hw := rect_width (win_rectangle w) / 2).
  set (h := rect_height (win_rectangle w)).
  assert (Hx : forall x, exists k,
             to_int (to_int (to_size_t (to_size_t x + hw)) + border)
             = x + hw + border + k * 2 ^ 32).
  { intros x. destruct (to_size_t_repr x) as [k1 E1].
    destruct (to_size_t_repr (to_size_t x + hw)) as [k2 E2].
    destruct (to_int_repr (to_size_t (to_size_t x + hw))) as [k3 E3].
    destruct (to_int_repr (to_int (to_size_t (to_size_t x + hw)) + border)) as [k4 E4].
    exists (k1 + k2 + k3 + k4). rewrite E4, E3, E2, E1. lia. }
  assert (Hy : forall y, exists k,
             to_int (to_int (to_size_t (to_size_t y + h)) + border)
             = y + h + border + k * 2 ^ 32).
  { intros y. destruct (to_size_t_repr y) as [k1 E1].
    destruct (to_size_t_repr (to_size_t y + h)) as [k2 E2].
    destruct (to_int_repr (to_size_t (to_size_t y + h))) as [k3 E3].
    destruct (to_int_repr (to_int (to_size_t (to_size_t y + h)) + border)) as [k4 E4].
    exists (k1 + k2 + k3 + k4). rewrite E4, E3, E2, E1. lia. }
  split; [|split].
  - destruct (Hx x1) as [k1 ->]. destruct (Hx x2) as [k2 ->].
    replace (x2 + hw + border + k2 * 2 ^ 32 - (x1 + hw + border + k1 * 2 ^ 32))
      with (x2 - x1 + (k2 - k1) * 2 ^ 32) by lia.
    apply to_int_add_multiple.
  - destruct (Hy y1) as [k1 ->]. destruct (Hy y2) as [k2 ->].
    replace (y2 + h + border + k2 * 2 ^ 32 - (y1 + h + border + k1 * 2 ^ 32))
      with (y2 - y1 + (k2 - k1) * 2 ^ 32) by lia.
    apply to_int_add_multiple.
  - intros Rx Ry.
    destruct (Hx x1) as [k1 E1]. destruct (Hy y1) as [k2 E2].
    pose proof (to_int_range (to_int (to_size_t (to_size_t x1 + hw)) + border)) as B1.
    pose proof (to_int_range (to_int (to_size_t (to_size_t y1 + h)) + border)) as B2.
    rewrite E1 in *. rewrite E2 in *.
    change (2 ^ 31) with 2147483648 in *. change (2 ^ 32) with 4294967296 in *.
    f_equal; lia.
Qed.

(* ------------------------------------------------------------------ *)
(** ** File descriptors of the anonymous file *)

Ltac count_events :=
  repeat (rewrite count_occ_app
          || (rewrite count_occ_cons_eq by reflexivity)
          || (rewrite count_occ_cons_neq by discriminate)
          || rewrite count_occ_nil);
  cbn [Nat.add].

Lemma create_tmpfile_cloexec_cases (sys : system) (template name : string) (fd0 : Z) :
  make_temp sys template = (fd0, name) -> 0 <= fd0 ->
  create_tmpfile_cloexec sys template = (fd0, [SysUnlink name]) \/
  create_tmpfile_cloexec sys template = (-1, [SysClose fd0; SysUnlink name]).
Proof.
  intros Htemp Hfd. unfold create_tmpfile_cloexec. rewrite Htemp.
  destruct (Z.leb_spec 0 fd0); [|lia].
  destruct (have_mkostemp sys); [left; reflexivity|].
  unfold set_cloexec_or_close.
  destruct (Z.eqb_spec fd0 (-1)); [lia|].
  destruct (fcntl_getfd sys fd0 =? -1); [right; reflexivity|].
  destruct (fcntl_setfd sys fd0 _ =? -1); [right; reflexivity | left; reflexivity].
Qed.

Lemma os_create_anonymous_file_cases (sys : system) (size : Z) (path name : string)
    (fd0 : Z) :
  xdg_runtime_dir sys = Some path -> malloc_name sys = true ->
  make_temp sys (path ++ "/weston-shared-XXXXXX") = (fd0, name) -> 0 <= fd0 ->
  (posix_fallocate sys fd0 size = 0 /\
   os_create_anonymous_file sys size = (fd0, None, [SysUnlink name])) \/
  (exists errno,
     os_create_anonymous_file sys size
     = (-1, errno, [SysUnlink name; SysClose fd0])) \/
  os_create_anonymous_file sys size = (-1, None, [SysClose fd0; SysUnlink name]).
Proof.
  intros Hpath Hmalloc Htemp Hfd. unfold os_create_anonymous_file.
  rewrite Hpath, Hmalloc. cbn [negb].
  destruct (create_tmpfile_cloexec_cases sys _ name fd0 Htemp Hfd) as [-> | ->].
  - destruct (Z.ltb_spec fd0 0); [lia|].
    destruct (Z.eqb_spec (posix_fallocate sys fd0 size) 0) as [E | N]; cbn [negb].
    + left. split; [exact E | reflexivity].
    + right. left. eexists. reflexivity.
  - right. right. reflexivity.
Qed.

(** X19.  Once the temporary file exists, [os_create_anonymous_file]
    unlinks its name exactly once and either returns the descriptor, still
    open, after [posix_fallocate] reserved the space, or returns -1 having
    closed the descriptor exactly once. *)
Theorem os_create_anonymous_file_descriptor (sys : system) (size : Z)
    (path name : string) (fd0 : Z) :
  xdg_runtime_dir sys = Some path -> malloc_name sys = true ->
  make_temp sys (path ++ "/weston-shared-XXXXXX") = (fd0, name) -> 0 <= fd0 ->
  let '(fd, _, log) := os_create_anonymous_file sys size in
  count_occ sys_event_eq_dec log (SysUnlink name) = 1%nat /\
  ((fd = fd0 /\ posix_fallocate sys fd0 size = 0 /\
    count_occ sys_event_eq_dec log (SysClose fd0) = 0%nat) \/
   (fd = -1 /\ count_occ sys_event_eq_dec log (SysClose fd0) = 1%nat)).
Proof.
  intros Hpath Hmalloc Htemp Hfd.
  destruct (os_create_anonymous_file_cases sys size path name fd0
              Hpath Hmalloc Htemp Hfd) as [[Hfa ->] | [[errno ->] | ->]].
  - split; [count_events; reflexivity|]. left.
    split; [reflexivity|]. split; [exact Hfa|]. count_events. reflexivity.
  - split; [count_events; reflexivity|]. right.
    split; [reflexivity|]. count_events. reflexivity.
  - split; [count_events; reflexivity|]. right.
    split; [reflexivity|]. count_events. reflexivity.
Qed.

Lemma os_create_anonymous_file_descriptor_witness :
  xdg_runtime_dir obliging_system = Some "/run/user/1000"%string /\
  malloc_name obliging_system = true /\
  make_temp obliging_system ("/run/user/1000" ++ "/weston-shared-XXXXXX")
  = (5, "/run/user/1000/weston-shared-XXXXXX"%string) /\
  0 <= 5 /\
  let '(fd, _, log) := os_create_anonymous_file obliging_system 4096 in
  count_occ sys_event_eq_dec log
    (SysUnlink "/run/user/1000/weston-shared-XXXXXX") = 1%nat /\
  ((fd = 5 /\ posix_fallocate obliging_system 5 4096 = 0 /\
    count_occ sys_event_eq_dec log (SysClose 5) = 0%nat) \/
   (fd = -1 /\ count_occ sys_event_eq_dec log (SysClose 5) = 1%nat)).
Proof.
  split; [reflexivity|]. split; [reflexivity|]. split; [reflexivity|].
  split; [lia|].
  apply (os_create_anonymous_file_descriptor obliging_system 4096
           "/run/user/1000" "/run/user/1000/weston-shared-XXXXXX" 5);
    [reflexivity | reflexivity | reflexivity | lia].
Defined.

(** X20.  Once the temporary file exists, [make_shm_pool] closes its
    descriptor exactly once and unlinks its name exactly once on every
    path, whether [fcntl], [posix_fallocate], [mmap] or the compositor
    fail or all succeed; and it returns a pool only over a mapping of the
    file, after [posix_fallocate] reserved the space. *)
Theorem make_shm_pool_descriptor (sys : system) (size : Z) (path name : string)
    (fd0 : Z) :
  xdg_runtime_dir sys = Some path -> malloc_name sys = true ->
  make_temp sys (path ++ "/weston-shared-XXXXXX") = (fd0, name) -> 0 <= fd0 ->
  let '(pool, data, log) := make_shm_pool sys size in
  count_occ sys_event_eq_dec log (SysClose fd0) = 1%nat /\
  count_occ sys_event_eq_dec log (SysUnlink name) = 1%nat /\
  (pool <> None ->
   posix_fallocate sys fd0 size = 0 /\
   exists d, mmap sys (to_size_t size) fd0 = Some d /\ data = Some (Some d)).
Proof.
  intros Hpath Hmalloc Htemp Hfd. unfold make_shm_pool.
  destruct (os_create_anonymous_file_cases sys size path name fd0
              Hpath Hmalloc Htemp Hfd) as [[Hfa ->] | [[errno ->] | ->]].
  - destruct (Z.ltb_spec fd0 0); [lia|].
    destruct (mmap sys (to_size_t size) fd0) as [d|] eqn:Hmap.
    + split; [count_events; reflexivity|]. split; [count_events; reflexivity|].
      intros _. split; [exact Hfa|]. exists d. split; reflexivity.
    + split; [count_events; reflexivity|]. split; [count_events; reflexivity|].
      intros Hp. contradiction.
  - cbn [Z.ltb Z.compare].
    split; [count_events; reflexivity|]. split; [count_events; reflexivity|].
    intros Hp. contradiction.
  - cbn [Z.ltb Z.compare].
    split; [count_events; reflexivity|]. split; [count_events; reflexivity|].
    intros Hp. contradiction.
Qed.

Lemma make_shm_pool_descriptor_witness :
  xdg_runtime_dir obliging_system = Some "/run/user/1000"%string /\
  malloc_name obliging_system = true /\
  make_temp obliging_system ("/run/user/1000" ++ "/weston-shared-XXXXXX")
  = (5, "/run/user/1000/weston-shared-XXXXXX"%string) /\
  0 <= 5 /\
  let '(pool, data, log) := make_shm_pool obliging_system 4096 in
  count_occ sys_event_eq_dec log (SysClose 5) = 1%nat /\
  count_occ sys_event_eq_dec log
    (SysUnlink "/run/user/1000/weston-shared-XXXXXX") = 1%nat /\
  (pool <> None ->
   posix_fallocate obliging_system 5 4096 = 0 /\
   exists d, mmap obliging_system (to_size_t 4096) 5 = Some d /\
             data = Some (Some d)).
Proof.
  split; [reflexivity|]. split; [reflexivity|]. split; [reflexivity|].
  split; [lia|].
  apply (make_shm_pool_descriptor obliging_system 4096
           "/run/user/1000" "/run/user/1000/weston-shared-XXXXXX" 5);
    [reflexivity | reflexivity | reflexivity | lia].
Defined.

(** X21.  When the pool for the new size cannot be created (no
    XDG_RUNTIME_DIR, no space, no mapping, ...), [window_resize] still
    returns: the window has the new size but no surface, drawing context,
    layout or pango context, and what the old surface held has been
    released. *)
Theorem window_resize_without_pool (stride_for_width : Z -> Z) (sys : system)
    (w : window) (width height : Z) :
  win_shm w <> None ->
  fst (shm_pool_create_in sys
         (to_size_t (data_length_for_shm_surface stride_for_width
            {| rect_x := rect_x (win_rectangle w);
               rect_y := rect_y (win_rectangle w);
               rect_width := to_size_t width;
               rect_height := to_size_t height |}))) = None ->
  exists w' log,
    window_resize stride_for_width sys w width height
    = Returned (w', SysPrint "resize" :: surface_release (win_cairo_surface w) ++ log) /\
    rect_width (win_rectangle w') = to_size_t width /\
    rect_height (win_rectangle w') = to_size_t height /\
    win_cairo_surface w' = None /\
    win_cr w' = false /\ win_layout w' = false /\ win_pango_context w' = false.
Proof.
  intros Hshm Hfail. unfold window_resize, window_free_buffer, window_allocate_buffer.
  cbn [win_shm win_rectangle win_cairo_surface win_cr win_layout win_pango_context].
  destruct (win_shm w) as [shm|]; [|contradiction].
  destruct (shm_pool_create_in sys _) as [[created|] log]; cbn [fst] in Hfail;
    [discriminate|].
  eexists. eexists. split; [reflexivity|]. cbn. repeat split.
Qed.

Lemma window_resize_without_pool_witness :
  win_shm bare_window <> None /\
  fst (shm_pool_create_in homeless_system
         (to_size_t (data_length_for_shm_surface four_bytes_per_pixel
            {| rect_x := rect_x (win_rectangle bare_window);
               rect_y := rect_y (win_rectangle bare_window);
               rect_width := to_size_t 640;
               rect_height := to_size_t 480 |}))) = None /\
  exists w' log,
    window_resize four_bytes_per_pixel homeless_system bare_window 640 480
    = Returned (w', SysPrint "resize"
                      :: surface_release (win_cairo_surface bare_window) ++ log) /\
    rect_width (win_rectangle w') = to_size_t 640 /\
    rect_height (win_rectangle w') = to_size_t 480 /\
    win_cairo_surface w' = None /\
    win_cr w' = false /\ win_layout w' = false /\ win_pango_context w' = false.
Proof.
  split; [discriminate|]. split; [reflexivity|].
  apply (window_resize_without_pool four_bytes_per_pixel homeless_system
           bare_window 640 480); [discriminate | reflexivity].
Defined.

(* ------------------------------------------------------------------ *)
(** ** The interpolation factor is a number *)

Lemma binary_round_aux_bounds (s : bool) (m : positive) (e : Z) (l : location) :
  -149 <= e -> e + 2 * Z.max 0 (Zpos (digits2_pos m) - 23) <= 104 ->
  exists m' e',
    binary_round_aux 24 128 s (Zpos m) e l = S754_finite s m' e' /\
    Zpos m' <= Zpos m + 1 /\
    e <= e' <= e + 2 * Z.max 0 (Zpos (digits2_pos m) - 23).
Proof.
  intros He Hd. unfold binary_round_aux.
  pose proof (shr_fexp_positive m e l He) as [[Hm1 Hm1'] He1].
  destruct (shr_fexp 24 128 (Zpos m) e l) as [mrs1 e1]. cbn [fst snd] in *.
  pose proof (round_nearest_even_range (shr_m mrs1) (loc_of_shr_record mrs1)) as Hr.
  destruct (round_nearest_even (shr_m mrs1) (loc_of_shr_record mrs1)) as [|m2|m2] eqn:Hm2;
    try lia.
  pose proof (digits2_pos_bounds m) as [_ Hhi].
  assert (Hd2 : Zpos (digits2_pos m2) <= Zpos (digits2_pos m) + 1)
    by (apply digits2_pos_upper; lia).
  pose proof (shr_fexp_positive m2 e1 loc_Exact ltac:(lia)) as [[Hm3 Hm3'] He2].
  destruct (shr_fexp 24 128 (Zpos m2) e1 loc_Exact) as [mrs2 e2]. cbn [fst snd] in *.
  destruct (shr_m mrs2) as [|m3|m3]; try lia.
  destruct (Z.leb_spec e2 (128 - 24)) as [_ | Hbig]; [|lia].
  exists m3, e2. split; [reflexivity|]. lia.
Qed.

Lemma F32_of_int_bounds (z : Z) :
  0 < z < 2 ^ 31 ->
  exists m e, F32.of_int z = S754_finite false m e /\
              Zpos m <= 2 ^ 31 /\ -23 <= e <= 16.
Proof.
  intros Hz. destruct z as [|p|p]; try lia.
  unfold F32.of_int, binary_normalize, binary_round, shl_align.
  change F32.prec with 24. change F32.emax with 128. rewrite fexp32.
  pose proof (digits2_pos_bounds p) as [Hlo Hhi].
  assert (Hd : Zpos (digits2_pos p) <= 31).
  { assert (Zpos (digits2_pos p) - 1 < 31); [|lia].
    apply (Z.pow_lt_mono_r_iff 2); lia. }
  destruct (Z.max (Zpos (digits2_pos p) + 0 - 24) (-149) - 0) as [|k|k] eqn:Hk.
  - destruct (binary_round_aux_bounds false p 0 loc_Exact) as (m & e & E & Hm & He);
      [lia | lia |].
    exists m, e. split; [exact E|]. split; lia.
  - destruct (binary_round_aux_bounds false p 0 loc_Exact) as (m & e & E & Hm & He);
      [lia | lia |].
    exists m, e. split; [exact E|]. split; lia.
  - pose proof (digits2_pos_iter_xO p k) as Hdig.
    pose proof (digits2_pos_bounds (Pos.iter xO p k)) as [_ Hhi'].
    rewrite Hdig in Hhi'.
    assert (Hd24 : Zpos (digits2_pos p + k) = 24) by lia.
    rewrite Hd24 in Hhi'.
    destruct (binary_round_aux_bounds false (Pos.iter xO p k)
                (Z.max (Zpos (digits2_pos p) + 0 - 24) (-149)) loc_Exact)
      as (m & e & E & Hm & He); [lia | rewrite Hdig; lia |].
    rewrite Hdig in He.
    exists m, e. split; [exact E|].
    change (2 ^ 24) with 16777216 in Hhi'. change (2 ^ 31) with 2147483648.
    split; lia.
Qed.

Lemma pow2_le (a b : Z) : 0 <= a <= b -> 2 ^ a <= 2 ^ b.
Proof. intros H. apply Z.pow_le_mono_r; lia. Qed.

(** The quotient of two positive [int]s, taken in [float], is a finite
    positive number. *)
Lemma F32_div_positive (m1 m2 : positive) (e1 e2 : Z) :
  Zpos m1 <= 2 ^ 31 -> -23 <= e1 <= 16 ->
  Zpos m2 <= 2 ^ 31 -> -23 <= e2 <= 16 ->
  exists m e,
    F32.div (S754_finite false m1 e1) (S754_finite false m2 e2)
    = S754_finite false m e.
Proof.
  intros Hm1 He1 Hm2 He2.
  unfold F32.div, SFdiv, SFdiv_core_binary.
  change F32.prec with 24. change F32.emax with 128. cbn [Zdigits2 xorb].
  rewrite fexp32.
  pose proof (digits2_pos_bounds m1) as [L1 U1].
  pose proof (digits2_pos_bounds m2) as [L2 U2].
  pose proof (digits2_pos_upper m1 31 ltac:(lia) Hm1) as D1.
  pose proof (digits2_pos_upper m2 31 ltac:(lia) Hm2) as D2.
  set (d1 := Zpos (digits2_pos m1)) in *.
  set (d2 := Zpos (digits2_pos m2)) in *.
  assert (P1 : 1 <= d1) by (unfold d1; lia).
  assert (P2 : 1 <= d2) by (unfold d2; lia).
  rewrite Z.max_l by lia.
  set (e' := Z.min (d1 + e1 - (d2 + e2) - 24) (e1 - e2)).
  set (s := e1 - e2 - e').
  assert (Hs : s = Z.max (d2 - d1 + 24) 0) by (unfold s, e'; lia).
  assert (Hm' : match s with
                | Zpos _ => Z.shiftl (Zpos m1) s
                | Z0 => Zpos m1
                | Zneg _ => 0
                end = Zpos m1 * 2 ^ s).
  { destruct s as [|k|k] eqn:Es.
    - cbn. lia.
    - apply Z.shiftl_mul_pow2. lia.
    - lia. }
  rewrite Hm'.
  destruct (Z.div_eucl (Zpos m1 * 2 ^ s) (Zpos m2)) as [q r] eqn:Hdiv.
  assert (Hq : q = Zpos m1 * 2 ^ s / Zpos m2)
    by (unfold Z.div; rewrite Hdiv; reflexivity).
  assert (Hps : 0 < 2 ^ s) by (apply Z.pow_pos_nonneg; lia).
  (* the quotient is at least one *)
  assert (Hbig : Zpos m2 <= Zpos m1 * 2 ^ s).
  { apply Z.le_trans with (2 ^ d2); [lia|].
    apply Z.le_trans with (2 ^ (d1 - 1 + s)); [apply pow2_le; lia|].
    rewrite Z.pow_add_r by lia.
    apply Z.mul_le_mono_nonneg_r; lia. }
  assert (Hq1 : 1 <= q).
  { rewrite Hq. apply Z.div_le_lower_bound; lia. }
  (* and below 2^32 *)
  assert (Hq32 : q < 2 ^ 32).
  { rewrite Hq. apply Z.div_lt_upper_bound; [lia|].
    apply Z.lt_le_trans with (2 ^ (d1 + s)).
    - rewrite Z.pow_add_r by lia. apply Z.mul_lt_mono_pos_r; lia.
    - apply Z.le_trans with (2 ^ (d2 - 1 + 32)); [apply pow2_le; lia|].
      rewrite Z.pow_add_r by lia.
      apply Z.mul_le_mono_nonneg_r; lia. }
  destruct q as [|q|q]; try lia.
  pose proof (digits2_pos_upper q 32 ltac:(lia) ltac:(lia)) as Dq.
  destruct (binary_round_aux_bounds false q e' (new_location (Zpos m2) r))
    as (m & e & E & _); [unfold e'; lia | unfold e'; lia |].
  exists m, e. exact E.
Qed.

(** The interpolation factor of every index of the loop is +0 or a finite
    positive number: never a NaN or an infinity. *)
Lemma factor_is_number (width i : Z) :
  2 <= width < 2 ^ 31 -> 0 <= i < 2 ^ 31 ->
  F32.div (F32.of_int i) (F32.of_int (to_int (width - 1))) = F32.zero \/
  exists m e,
    F32.div (F32.of_int i) (F32.of_int (to_int (width - 1)))
    = S754_finite false m e.
Proof.
  intros Hw Hi. rewrite to_int_small by lia.
  destruct (F32_of_int_bounds (width - 1)) as (m2 & e2 & E2 & Hm2 & He2); [lia|].
  rewrite E2.
  destruct (Z.eq_dec i 0) as [-> | Hi0].
  - left. reflexivity.
  - right. destruct (F32_of_int_bounds i) as (m1 & e1 & E1 & Hm1 & He1); [lia|].
    rewrite E1. apply F32_div_positive; assumption.
Qed.

(** With equal channel values the offset is 0 at every factor that is a
    number. *)
Lemma channel_offset_same (factor : spec_float) (c : Z) :
  (factor = F32.zero \/ exists m e, factor = S754_finite false m e) ->
  channel_offset factor c c 0 = 0.
Proof.
  intros Hf. unfold channel_offset. rewrite Z.leb_refl.
  destruct Hf as [-> | [m [e ->]]]; reflexivity.
Qed.

(* ------------------------------------------------------------------ *)
(** ** More about [do_gradient] *)

Lemma do_gradient_endpoints_true_colour_witness :
  let env := {| out_to_x := true; DisplayPlanes := 24 |} in
  let st := set_up_gradient env initial_state in
  true_colour st /\ 2 <= 7 < 2 ^ 31 /\
  List.length (fst (do_gradient env 7 0xFF8000 0x0080FF st)) = Z.to_nat 7 /\
  hd 0 (fst (do_gradient env 7 0xFF8000 0x0080FF st)) = Z.land 0xFF8000 0xffffff /\
  last (fst (do_gradient env 7 0xFF8000 0x0080FF st)) 0 = Z.land 0x0080FF 0xffffff.
Proof.
  intros env st.
  assert (Hst : true_colour st) by (repeat split).
  split; [exact Hst|]. split; [lia|].
  apply (do_gradient_endpoints_true_colour st Hst env 7 0xFF8000 0x0080FF). lia.
Defined.

Lemma do_gradient_green_at_most_31_witness :
  let st := set_up_gradient wayland_env initial_state in
  colour_depth st = 16 /\ greenmask st = 0x07E0 /\ bluemask st = 0x001F /\
  In 0x03E0 (fst (do_gradient wayland_env 2 0x07E0 0 st)) /\
  0 <= green_of st 5 0x03E0 <= 31.
Proof.
  intro st.
  split; [reflexivity|]. split; [reflexivity|]. split; [reflexivity|].
  assert (Hin : In 0x03E0 (fst (do_gradient wayland_env 2 0x07E0 0 st)))
    by (vm_compute; left; reflexivity).
  split; [exact Hin|].
  exact (do_gradient_green_at_most_31 wayland_env 2 0x07E0 0 st 0x03E0
           eq_refl eq_refl eq_refl Hin).
Defined.

Lemma pack_below_2_24 (r g b : Z) :
  0 <= r <= 255 -> 0 <= g <= 255 -> 0 <= b <= 255 ->
  0 <= to_ulong (Z.lor (Z.lor (to_int (Z.shiftl r 16)) (to_int (Z.shiftl g 8))) b)
  < 2 ^ 24.
Proof.
  intros Hr Hg Hb.
  assert (H16 : 0 <= Z.shiftl r 16 < 2 ^ 24)
    by (rewrite Z.shiftl_mul_pow2 by lia; change (2 ^ 16) with 65536;
        change (2 ^ 24) with 16777216; lia).
  assert (H8 : 0 <= Z.shiftl g 8 < 2 ^ 24)
    by (rewrite Z.shiftl_mul_pow2 by lia; change (2 ^ 8) with 256;
        change (2 ^ 24) with 16777216; lia).
  rewrite (to_int_small (Z.shiftl r 16))
    by (change (2 ^ 24) with 16777216 in H16; change (2 ^ 31) with 2147483648; lia).
  rewrite (to_int_small (Z.shiftl g 8))
    by (change (2 ^ 24) with 16777216 in H8; change (2 ^ 31) with 2147483648; lia).
  assert (Hl : 0 <= Z.lor (Z.lor (Z.shiftl r 16) (Z.shiftl g 8)) b < 2 ^ 24).
  { apply lor_below_pow2; [lia | | change (2 ^ 24) with 16777216; lia].
    apply lor_below_pow2; [lia | exact H16 | exact H8]. }
  unfold to_ulong, wrap_unsigned. rewrite Z.mod_small; [exact Hl|].
  change (2 ^ 24) with 16777216 in Hl. change (2 ^ 64) with 18446744073709551616. lia.
Qed.

Section TrueColourGradient.

Variable st : state.
Hypothesis Hst : true_colour st.

(** X22.  At depth 24 every element of every gradient is a 24-bit value:
    whatever the width and the two colours, each channel is clamped into
    0..255 before the three are packed. *)
Theorem do_gradient_true_colour_range (env : display_env) (width c1 c2 x : Z) :
  In x (fst (do_gradient env width c1 c2 st)) -> 0 <= x < 2 ^ 24.
Proof.
  intros Hin. unfold do_gradient in Hin. cbn [fst] in Hin.
  destruct Hst as (Hd & _ & _ & Hb).
  rewrite ensure_depth_initialised in Hin by (rewrite Hd; discriminate).
  apply in_map_iff in Hin. destruct Hin as [i [<- _]].
  rewrite Hd.
  change (to_short (Z.quot (2 * 24) 3 + Z.rem 24 3)) with 16.
  change (to_short (Z.quot 24 3)) with 8.
  unfold gradient_entry. rewrite Hb.
  apply pack_below_2_24; apply clamp_channel_range; lia.
Qed.

Lemma gradient_entry_same_colour (width c i : Z) :
  2 <= width < 2 ^ 31 -> 0 <= i < 2 ^ 31 ->
  gradient_entry st 16 8 width c c i = Z.land c 0xffffff.
Proof.
  intros Hw Hi. unfold gradient_entry.
  rewrite !(red_of_true_colour st Hst), !(green_of_true_colour st Hst),
    !(blue_of_true_colour st Hst).
  unfold channel_diff. rewrite !Z.sub_diag.
  change (to_int (Z.abs (to_int 0))) with 0.
  rewrite !(channel_offset_same _ _ (factor_is_number width i Hw Hi)).
  rewrite !Z.add_0_l.
  destruct Hst as (_ & _ & _ & Hb). rewrite Hb.
  pose proof (byte_field_range (Z.shiftr c 16)) as Hr.
  pose proof (byte_field_range (Z.shiftr c 8)) as Hg.
  pose proof (byte_field_range c) as Hbb.
  rewrite (to_int_small (Z.land (Z.shiftr c 16) 255)) by lia.
  rewrite (to_int_small (Z.land (Z.shiftr c 8) 255)) by lia.
  rewrite (to_int_small (Z.land c 255)) by lia.
  rewrite !clamp_channel_inside by lia.
  apply pack_888.
Qed.

(** X23.  At depth 24 a gradient between a colour and itself is that
    colour (its low 24 bits) at every step, for every width an [int] can
    hold: the interpolation factor is always a number, and a channel
    difference of 0 gives an offset of 0 at every factor. *)
Theorem do_gradient_same_colour (env : display_env) (width c x : Z) :
  width < 2 ^ 31 ->
  In x (fst (do_gradient env width c c st)) -> x = Z.land c 0xffffff.
Proof.
  intros Hw Hin. unfold do_gradient in Hin. cbn [fst] in Hin.
  destruct Hst as (Hd & _).
  rewrite ensure_depth_initialised in Hin by (rewrite Hd; discriminate).
  apply in_map_iff in Hin. destruct Hin as [i [<- Hi]].
  apply in_seq in Hi.
  rewrite Hd.
  change (to_short (Z.quot (2 * 24) 3 + Z.rem 24 3)) with 16.
  change (to_short (Z.quot 24 3)) with 8.
  apply gradient_entry_same_colour; lia.
Qed.

End TrueColourGradient.

Lemma do_gradient_true_colour_range_witness :
  let env := {| out_to_x := true; DisplayPlanes := 24 |} in
  let st := set_up_gradient env initial_state in
  true_colour st /\
  In 0x7F0080 (fst (do_gradient env 5 0xFF0000 0x0000FF st)) /\
  0 <= 0x7F0080 < 2 ^ 24.
Proof.
  intros env st.
  assert (Hst : true_colour st) by (repeat split).
  assert (Hin : In 0x7F0080 (fst (do_gradient env 5 0xFF0000 0x0000FF st)))
    by (vm_compute; right; right; left; reflexivity).
  split; [exact Hst|]. split; [exact Hin|].
  exact (do_gradient_true_colour_range st Hst env 5 0xFF0000 0x0000FF 0x7F0080 Hin).
Defined.

Lemma do_gradient_same_colour_witness :
  let env := {| out_to_x := true; DisplayPlanes := 24 |} in
  let st := set_up_gradient env initial_state in
  true_colour st /\ 3 < 2 ^ 31 /\
  In 0xC0FFEE (fst (do_gradient env 3 0xC0FFEE 0xC0FFEE st)) /\
  0xC0FFEE = Z.land 0xC0FFEE 0xffffff.
Proof.
  intros env st.
  assert (Hst : true_colour st) by (repeat split).
  assert (Hin : In 0xC0FFEE (fst (do_gradient env 3 0xC0FFEE 0xC0FFEE st)))
    by (vm_compute; left; reflexivity).
  split; [exact Hst|]. split; [lia|]. split; [exact Hin|].
  apply (do_gradient_same_colour st Hst env 3 0xC0FFEE 0xC0FFEE); [lia | exact Hin].
Defined.

(** X24.  A gradient requested while the colour depth is still unset, on a
    display that is not X11, is built with both shifts 0 and every channel
    clamped to the 5-bit blue mask: whatever the width and the colours, no
    element exceeds 31. *)
Theorem do_gradient_unset_depth (env : display_env) (st : state)
    (width c1 c2 x : Z) :
  colour_depth st = 0 -> out_to_x env = false ->
  In x (fst (do_gradient env width c1 c2 st)) -> 0 <= x <= 31.
Proof.
  intros Hd Hx Hin. unfold do_gradient in Hin. cbn [fst] in Hin.
  rewrite Hd in Hin.
  change (to_short (Z.quot (2 * 0) 3 + Z.rem 0 3)) with 0 in Hin.
  change (to_short (Z.quot 0 3)) with 0 in Hin.
  apply in_map_iff in Hin. destruct Hin as [i [<- _]].
  unfold gradient_entry.
  assert (Hb : bluemask (ensure_depth env st) = 31).
  { unfold ensure_depth. rewrite Hd. cbn [Z.eqb].
    unfold set_up_gradient. rewrite Hx. reflexivity. }
  rewrite Hb. rewrite !Z.shiftl_0_r.
  match goal with
  | |- 0 <= to_ulong (Z.lor (Z.lor (to_int (clamp_channel 31 ?r))
                                   (to_int (clamp_channel 31 ?g)))
                            (clamp_channel 31 ?b)) <= 31 =>
      pose proof (clamp_channel_range 31 r ltac:(lia)) as Hr;
      pose proof (clamp_channel_range 31 g ltac:(lia)) as Hg;
      pose proof (clamp_channel_range 31 b ltac:(lia)) as Hbl;
      set (R := clamp_channel 31 r) in *;
      set (G := clamp_channel 31 g) in *;
      set (B := clamp_channel 31 b) in *
  end.
  rewrite (to_int_small R), (to_int_small G) by lia.
  match goal with
  | |- 0 <= to_ulong ?v <= 31 =>
      assert (Hl : 0 <= v < 2 ^ 5)
        by (apply lor_below_pow2; [lia | | change (2 ^ 5) with 32; lia];
            apply lor_below_pow2; change (2 ^ 5) with 32; lia)
  end.
  change (2 ^ 5) with 32 in Hl.
  unfold to_ulong, wrap_unsigned. rewrite Z.mod_small; lia.
Qed.

Lemma do_gradient_unset_depth_witness :
  colour_depth initial_state = 0 /\ out_to_x wayland_env = false /\
  In 0x001F (fst (do_gradient wayland_env 2 0xF800 0 initial_state)) /\
  0 <= 0x001F <= 31.
Proof.
  assert (Hin : In 0x001F (fst (do_gradient wayland_env 2 0xF800 0 initial_state)))
    by (vm_compute; left; reflexivity).
  split; [reflexivity|]. split; [reflexivity|]. split; [exact Hin|].
  exact (do_gradient_unset_depth wayland_env initial_state 2 0xF800 0 0x001F
           eq_refl eq_refl Hin).
Defined.

(* ------------------------------------------------------------------ *)
(** ** Committing the buffer, and the time-out *)

(** X27.  After [window_resize] for [int] sizes, what
    [window_commit_buffer] does is decided by whether the pool for the new
    size could be created: if [shm_pool_create] returned a pool, the commit
    attaches the buffer laid over that pool (the requested width and
    height, offset 0, the whole pool used), damages the window's rectangle
    at the requested size and commits once; if it returned NULL, the window
    has no surface and the commit fails its assertion. *)
Theorem window_resize_then_commit (stride_for_width : Z -> Z) (sys : system)
    (w : window) (width height : Z) :
  win_shm w <> None ->
  - 2 ^ 31 <= width < 2 ^ 31 -> - 2 ^ 31 <= height < 2 ^ 31 ->
  let rect := {| rect_x := rect_x (win_rectangle w);
                 rect_y := rect_y (win_rectangle w);
                 rect_width := to_size_t width;
                 rect_height := to_size_t height |} in
  exists w' log,
    window_resize stride_for_width sys w width height = Returned (w', log) /\
    match fst (shm_pool_create_in sys
                 (to_size_t (data_length_for_shm_surface stride_for_width rect))) with
    | Some (wl_pool, pool) =>
        window_commit_buffer w'
        = Returned
            [WlAttach {| surface_map := pool_data pool;
                         surface_width := width;
                         surface_height := height;
                         surface_stride := stride_for_width width;
                         surface_offset := 0;
                         surface_pool :=
                           Some (wl_pool,
                                 {| pool_size := pool_size pool;
                                    pool_used := pool_size pool;
                                    pool_data := pool_data pool |}) |};
             WlDamage (to_int (rect_x (win_rectangle w)))
                      (to_int (rect_y (win_rectangle w))) width height;
             WlCommit]
    | None => window_commit_buffer w' = AssertionFailed
    end.
Proof.
  intros Hshm Hw Hh rect. unfold window_resize, window_free_buffer.
  destruct (win_shm w) as [shm|] eqn:Eshm; [|contradiction].
  match goal with
  | |- context [window_allocate_buffer _ _ ?w2] =>
      pose proof (window_allocate_buffer_outcome stride_for_width sys w2 shm eq_refl) as Hcases
  end.
  cbv zeta in Hcases. cbn [win_rectangle] in Hcases. fold rect in Hcases.
  cbn [win_rectangle]. fold rect.
  destruct (shm_pool_create_in sys
              (to_size_t (data_length_for_shm_surface stride_for_width rect)))
    as [[[wl_pool pool]|] l].
  - rewrite Hcases. eexists. eexists. split; [reflexivity|].
    cbn [fst]. unfold window_commit_buffer.
    cbn [win_cairo_surface win_rectangle rect rect_x rect_y rect_width rect_height].
    unfold rect. cbn [rect_x rect_y rect_width rect_height].
    rewrite !int_through_size_t by assumption. reflexivity.
  - rewrite Hcases. eexists. eexists. split; [reflexivity|].
    cbn [fst]. reflexivity.
Qed.

Lemma window_resize_then_commit_witness :
  win_shm bare_window <> None /\
  - 2 ^ 31 <= 640 < 2 ^ 31 /\ - 2 ^ 31 <= 480 < 2 ^ 31 /\
  exists w' log,
    window_resize four_bytes_per_pixel obliging_system bare_window 640 480
    = Returned (w', log) /\
    window_commit_buffer w'
    = Returned
        [WlAttach {| surface_map := 65536;
                     surface_width := 640;
                     surface_height := 480;
                     surface_stride := 2560;
                     surface_offset := 0;
                     surface_pool :=
                       Some (1, {| pool_size := 1228800;
                                   pool_used := 1228800;
                                   pool_data := 65536 |}) |};
         WlDamage 0 0 640 480;
         WlCommit].
Proof.
  split; [discriminate|]. split; [lia|]. split; [lia|].
  exact (window_resize_then_commit four_bytes_per_pixel obliging_system
           bare_window 640 480 ltac:(discriminate) ltac:(lia) ltac:(lia)).
Defined.

(** X28.  A time-out that compares below 0.0 (any negative number, minus
    infinity included) and a time-out of zero of either sign make
    [main_loop_wait] wait 0 ms. *)
Theorem timeout_ms_not_positive (t : spec_float) :
  SFleb t (F64.of_int 0) = true -> timeout_ms t = 0.
Proof.
  intros Ht. unfold timeout_ms.
  destruct t as [s | s | | s m e]; try discriminate Ht.
  - destruct s; reflexivity.
  - destruct s; [reflexivity | discriminate Ht].
  - destruct s; [reflexivity | discriminate Ht].
Qed.

Lemma timeout_ms_not_positive_witness :
  SFleb (SFopp (F64.of_decimal 15 1)) (F64.of_int 0) = true /\
  timeout_ms (SFopp (F64.of_decimal 15 1)) = 0.
Proof.
  split; [reflexivity|].
  apply (timeout_ms_not_positive (SFopp (F64.of_decimal 15 1))). reflexivity.
Defined.
